(** * ETmbit/general: radio message chunking, group selection and waits

    A shallow embedding of the two versions of [general.ts] found in the
    repository:

    - [GeneralTs] embeds the current file (header "github.com/ETmbit/general.ts"):
      the radio message registry, [registerMessageHandler],
      [radio.onReceivedString], [sendRadioMessage], the logo/group handlers and
      the auto-resetting [wait];
    - [MainTs] embeds [src/main.ts]: [waitUntil] and the [wait] that leaves
      the abort flag alone.

    [Js] holds the few pieces of the JavaScript string library the program
    calls. *)

From Stdlib Require Import ZArith QArith Ascii String Lia ZifyNat Bool.
From Stdlib Require Floats Uint63.
From stdpp Require Import base list strings.
From Equations Require Import Equations.

#[local] Open Scope Z_scope.
#[local] Open Scope list_scope.

(** ** JavaScript strings *)

Module Js.

(** A string is its sequence of code units; [length] is [s.length]. *)
Abbreviation jsstring := (list ascii).

(** A string literal. *)
Definition str (s : string) : jsstring := list_ascii_of_string s.

Definition len (s : jsstring) : Z := Z.of_nat (length s).

(** [s.substr(start, length)]; [None] is an omitted [length].
    A negative [start] counts from the end, the length is clamped to
    [0 .. s.length]. *)
Definition substr (s : jsstring) (start : Z) (length : option Z) : jsstring :=
  let size := len s in
  let intStart :=
    if start <? 0 then Z.max (size + start) 0 else Z.min start size in
  let intLength :=
    match length with
    | None => size
    | Some l => Z.min (Z.max l 0) size
    end in
  let intEnd := Z.min (intStart + intLength) size in
  take (Z.to_nat (intEnd - intStart)) (drop (Z.to_nat intStart) s).

(** Decimal digit [d] (0..9) as a character. *)
Definition digit_char (d : Z) : ascii := ascii_of_nat (48 + Z.to_nat d).

Fixpoint digits (fuel : nat) (n : Z) (acc : jsstring) : jsstring :=
  match fuel with
  | O => acc
  | S fuel' =>
      let acc' := digit_char (n mod 10) :: acc in
      if n / 10 =? 0 then acc' else digits fuel' (n / 10) acc'
  end.

(** [n.toString()] for an integer [n]: its decimal digits, with a minus
    sign when negative. A number of [k] bits has at most [k] digits. *)
Definition toString (n : Z) : jsstring :=
  if n <? 0
  then "-"%char :: digits (S (Z.to_nat (Z.log2 (- n)))) (- n) []
  else digits (S (Z.to_nat (Z.log2 n))) n [].

(** *** Numbers read from strings *)

(** The value of a numeric conversion: not-a-number or a rational. *)
Inductive jsnum :=
| NaN
| Num (q : Q).

(** [a <= b] and [a >= b]: every comparison with [NaN] is false. *)
Definition jsle (a b : jsnum) : bool :=
  match a, b with
  | Num x, Num y => Qle_bool x y
  | _, _ => false
  end.

Definition jsge (a b : jsnum) : bool := jsle b a.

(** White space and line terminators below code unit 256. *)
Definition is_space (c : ascii) : bool :=
  let n := nat_of_ascii c in
  ((9 <=? n) && (n <=? 13))%nat || (n =? 32)%nat || (n =? 160)%nat.

Definition digit_value (c : ascii) : option Z :=
  let n := nat_of_ascii c in
  if ((48 <=? n) && (n <=? 57))%nat then Some (Z.of_nat n - 48) else None.

(** Reads the longest prefix of decimal digits: its value continuing
    [acc], how many digits were read, and the rest. *)
Fixpoint parseDigits (s : jsstring) (acc : Z) (count : nat)
  : Z * nat * jsstring :=
  match s with
  | [] => (acc, count, [])
  | c :: s' =>
      match digit_value c with
      | Some d => parseDigits s' (10 * acc + d) (S count)
      | None => (acc, count, s)
      end
  end.

(** An unsigned decimal literal: digits, optionally a dot and more
    digits, at least one digit in all. *)
Definition parseDecimal (s : jsstring) : jsnum :=
  let '(ip, ni, r1) := parseDigits s 0 0 in
  match r1 with
  | [] => if (ni =? 0)%nat then NaN else Num (inject_Z ip)
  | c :: r2 =>
      if bool_decide (c = "."%char) then
        let '(fp, nf, r3) := parseDigits r2 0 0 in
        match r3 with
        | [] =>
            if (ni + nf =? 0)%nat then NaN
            else Num (inject_Z ip + inject_Z fp / inject_Z (10 ^ Z.of_nat nf))
        | _ :: _ => NaN
        end
      else NaN
  end.

Fixpoint dropSpaces (s : jsstring) : jsstring :=
  match s with
  | c :: s' => if is_space c then dropSpaces s' else s
  | [] => []
  end.

Definition trim (s : jsstring) : jsstring :=
  reverse (dropSpaces (reverse (dropSpaces s))).

(** Unary plus on a string, [+s]: surrounding white space is dropped, the
    empty string is 0, a signed decimal literal is its value and anything
    else is [NaN]. Literals with an exponent, a radix prefix or
    [Infinity] take three characters or more and are not covered: the
    program converts [msg.substr(0, 2)] only. *)
Definition toNumber (s : jsstring) : jsnum :=
  match trim s with
  | [] => Num 0
  | c :: r =>
      if bool_decide (c = "+"%char) then parseDecimal r
      else if bool_decide (c = "-"%char) then
        match parseDecimal r with
        | Num q => Num (- q)
        | NaN => NaN
        end
      else parseDecimal (c :: r)
  end.

End Js.

Import Js.

(** ** general.ts *)

Module GeneralTs.

(** *** The registry of radio message handlers *)

(** A [strhandler] is a closure of the program using the extension; the
    model knows it by a name and records its calls. *)
Definition strhandler := nat.

(** An array cell that was never written, or holds [undefined], is [None]. *)
Definition array_get {A} (a : list (option A)) (ix : nat) : option A :=
  a !! ix ≫= id.

(** [a[ix] = v]: writing past the end grows the array, leaving holes. *)
Definition array_set {A} (a : list (option A)) (ix : nat) (v : A)
  : list (option A) :=
  if (ix <? length a)%nat then <[ix := Some v]> a
  else a ++ replicate (ix - length a) None ++ [Some v].

(** The globals [ETradioIds], [ETradioMsgs], [ETradioHandlers] and
    [ETradioHandler]; an unset handler is [None]. *)
Record registry := Registry {
  ETradioIds : list jsstring;
  ETradioMsgs : list (option jsstring);
  ETradioHandlers : list (option strhandler);
  ETradioHandler : option strhandler
}.

(** The state at program start. *)
Definition emptyRegistry : registry := Registry [] [] [] None.

(** [General.onRadioMessage(code)]. *)
Definition onRadioMessage (code : strhandler) (st : registry) : registry :=
  Registry (ETradioIds st) (ETradioMsgs st) (ETradioHandlers st) (Some code).

(** The [switch (id.length)] of [registerMessageHandler]. *)
Definition normalizeId (id : jsstring) : jsstring :=
  match length id with
  | 0%nat => str "ET"
  | 1%nat => id ++ str "#"
  | 2%nat => id
  | _ => substr id 0 (Some 2)
  end.

(** [General.registerMessageHandler(id, hnd)]: the new state and the
    returned number. *)
Definition registerMessageHandler (id : jsstring) (hnd : option strhandler)
    (st : registry) : registry * Z :=
  let id := normalizeId id in
  let handlers := ETradioHandlers st ++ [hnd] in
  let ids := ETradioIds st ++ [id] in
  let msgs := ETradioMsgs st ++ [Some []] in
  (Registry ids msgs handlers (ETradioHandler st),
   Z.of_nat (length handlers) - 1).

(** *** Receiving *)

(** How a call of the receive handler ends: it returns, or the call of a
    handler that is [undefined] throws. Both carry the state left behind and
    the handler calls made, in order. *)
Inductive outcome :=
| Returned (st : registry) (calls : list (strhandler * jsstring))
| Threw (st : registry) (calls : list (strhandler * jsstring)).

(** The [for] loop over [ETradioIds]: the first index holding [idstr], or
    the length of the array. *)
Fixpoint scanIds (idstr : jsstring) (ids : list jsstring) : nat :=
  match ids with
  | [] => 0
  | x :: ids' => if bool_decide (idstr = x) then 0 else S (scanIds idstr ids')
  end.

(** The statements after the lookup: append the chunk and, at the end of a
    message, call the handler and clear the text. *)
Definition deliver (ix : nat) (chunk : jsstring) (msgend : bool)
    (st : registry) : outcome :=
  let old :=
    match array_get (ETradioMsgs st) ix with
    | Some s => s
    | None => str "undefined"
    end in
  let text := old ++ chunk in
  let st1 := Registry (ETradioIds st) (array_set (ETradioMsgs st) ix text)
               (ETradioHandlers st) (ETradioHandler st) in
  if msgend then
    match array_get (ETradioHandlers st1) ix with
    | Some hnd =>
        Returned (Registry (ETradioIds st1) (array_set (ETradioMsgs st1) ix [])
                    (ETradioHandlers st1) (ETradioHandler st1))
          [(hnd, text)]
    | None => Threw st1 []
    end
  else Returned st1 [].

(** The handler given to [radio.onReceivedString]. *)
Definition onReceivedString (msg : jsstring) (st : registry) : outcome :=
  let idstr := substr msg 0 (Some 2) in
  let id := toNumber idstr in
  let msgend := bool_decide (substr msg (len msg - 1) None = str "~") in
  let chunk :=
    if msgend then substr msg 2 (Some (len msg - 3))
    else substr msg 2 (Some (len msg - 2)) in
  let ix := scanIds idstr (ETradioIds st) in
  if (ix =? length (ETradioIds st))%nat then
    if jsle id (Num 0) || jsge id (Num 100) then Returned st []
    else deliver ix chunk msgend
           (fst (registerMessageHandler idstr (ETradioHandler st) st))
  else deliver ix chunk msgend st.

(** The radio delivers [units] one after the other; a throw ends it. *)
Fixpoint receiveAll (units : list jsstring) (st : registry) : outcome :=
  match units with
  | [] => Returned st []
  | u :: units' =>
      match onReceivedString u st with
      | Returned st1 calls1 =>
          match receiveAll units' st1 with
          | Returned st2 calls2 => Returned st2 (calls1 ++ calls2)
          | Threw st2 calls2 => Threw st2 (calls1 ++ calls2)
          end
      | Threw st1 calls1 => Threw st1 calls1
      end
  end.

Definition calls_of (o : outcome) : list (strhandler * jsstring) :=
  match o with Returned _ c | Threw _ c => c end.

Definition state_of (o : outcome) : registry :=
  match o with Returned st _ | Threw st _ => st end.

Definition threw (o : outcome) : bool :=
  match o with Returned _ _ => false | Threw _ _ => true end.

(** The registries the program can be in: it starts empty, and changes
    by the three operations above. *)
Inductive reachable : registry -> Prop :=
| reachable_start : reachable emptyRegistry
| reachable_onRadioMessage st code :
    reachable st -> reachable (onRadioMessage code st)
| reachable_register st id hnd :
    reachable st -> reachable (fst (registerMessageHandler id hnd st))
| reachable_receive st msg :
    reachable st -> reachable (state_of (onReceivedString msg st)).

(** The three arrays run in step, every text is a string and every id has
    two characters. *)
Record registry_ok (st : registry) : Prop := {
  ok_msgs : length (ETradioMsgs st) = length (ETradioIds st);
  ok_handlers : length (ETradioHandlers st) = length (ETradioIds st);
  ok_texts : Forall is_Some (ETradioMsgs st);
  ok_ids : Forall (fun id => length id = 2%nat) (ETradioIds st)
}.

(** The registry with the text of entry [ix] replaced. *)
Definition withText (ix : nat) (text : jsstring) (st : registry) : registry :=
  Registry (ETradioIds st) (<[ix := Some text]> (ETradioMsgs st))
    (ETradioHandlers st) (ETradioHandler st).

(** *** Sending *)

(** What [sendRadioMessage] does to the outside world. *)
Inductive radio_effect :=
| SendString (unit : jsstring)   (* radio.sendString(unit) *)
| Pause (ms : Z).                (* basic.pause(ms) *)

Definition tilde : ascii := "~"%char.

(** The string one pass of the loop hands to [radio.sendString]. *)
Definition nextUnit (idstr msg : jsstring) : jsstring :=
  let chunk := substr msg 0 (Some 17) in
  let chunk := if (length chunk <? 17)%nat then chunk ++ [tilde] else chunk in
  idstr ++ chunk.

(** The [do ... while (msg.length > 0)] loop. *)
Equations? sendLoop (idstr msg : jsstring) : list radio_effect
  by wf (length msg) lt :=
  sendLoop idstr msg with lt_dec 0 (length (substr msg 17 None)) := {
    | left _ =>
        SendString (nextUnit idstr msg) :: Pause 1
          :: sendLoop idstr (substr msg 17 None)
    | right _ => [SendString (nextUnit idstr msg); Pause 1] }.
Proof.
  clear sendLoop. revert l. unfold substr, len. cbn [Z.ltb Z.compare].
  rewrite length_take, length_drop. lia.
Qed.

(** The two-digit string [sendRadioMessage] makes of [id]. *)
Definition idstrOf (id : Z) : jsstring :=
  if id <? 10 then str "0" ++ toString id else toString id.

(** [General.sendRadioMessage(msg, id)] for an integer [id]. *)
Definition sendRadioMessage (msg : jsstring) (id : Z) : list radio_effect :=
  if (id <=? 0) || (id >=? 100) then []
  else
    let idstr := idstrOf id in
    sendLoop idstr msg.

(** The transmission units among the effects, in order. *)
Definition units (es : list radio_effect) : list jsstring :=
  omap (fun e => match e with SendString u => Some u | Pause _ => None end) es.

(** *** Choosing the radio group with the logo *)

(** What the group handlers show and set. [DisplayGroup n] is one run of
    [displayGroup()] with [ETgroup = n]: the number, the display handlers
    (or the default icon) and the logo handler. *)
Inductive group_effect :=
| ShowNumber (n : Z)       (* basic.showNumber(n) *)
| RadioSetGroup (n : Z)    (* radio.setGroup(n) *)
| RaiseEvent               (* control.raiseEvent(ETeventId, 0) *)
| DisplayGroup (n : Z).

(** The globals [ETgroup], [ETgroupTimer] and [ETgroupSet], the clock
    [control.millis()], whether the handler of [ETeventId] is running,
    and the effects so far. Showing a number or an icon takes no time here;
    the clock moves with [Ms] only. *)
Record group_state := GroupState {
  ETgroup : Z;
  ETgroupTimer : Z;
  ETgroupSet : bool;
  millis : Z;
  eventRunning : bool;
  effects : list group_effect
}.

(** After the top-level statements [radio.setGroup(1)] and
    [displayGroup()], with the clock at [now]. *)
Definition startup (now : Z) : group_state :=
  GroupState 1 0 false now false [RadioSetGroup 1; DisplayGroup 1].

(** The handler given to [input.onLogoEvent(TouchButtonEvent.Pressed, ...)]. *)
Definition onLogoEvent (st : group_state) : group_state :=
  let '(group, set, out) :=
    if ETgroupSet st then
      let group := ETgroup st + 1 in
      let group := if group >? 9 then 1 else group in
      (group, true, effects st ++ [RadioSetGroup group])
    else (ETgroup st, true, effects st) in
  let out := out ++ [ShowNumber group] in
  if ETgroupTimer st =? 0 then
    GroupState group (millis st + 1000) set (millis st) true (out ++ [RaiseEvent])
  else
    GroupState group (millis st + 1000) set (millis st) (eventRunning st) out.

(** The handler given to [control.onEvent(ETeventId, 0, ...)], from one
    test of its [while] condition on: either it pauses again or it runs
    to its end. *)
Definition onEventPoll (st : group_state) : group_state :=
  if ETgroupTimer st >? millis st then st
  else
    GroupState (ETgroup st) 0 false (millis st) false
      (effects st ++ [DisplayGroup (ETgroup st)]).

(** What happens to the device: the logo is pressed, or a millisecond
    passes, which ends a [basic.pause(1)] of the event handler when it is
    running. *)
Inductive input :=
| Logo
| Ms.

Definition step (st : group_state) (i : input) : group_state :=
  match i with
  | Logo => onLogoEvent st
  | Ms =>
      let st' := GroupState (ETgroup st) (ETgroupTimer st) (ETgroupSet st)
                   (millis st + 1) (eventRunning st) (effects st) in
      if eventRunning st' then onEventPoll st' else st'
  end.

Definition run (ins : list input) (st : group_state) : group_state :=
  foldl step st ins.

(** The group numbers shown by [displayGroup()], in order. *)
Definition commits (st : group_state) : list Z :=
  omap (fun e => match e with DisplayGroup n => Some n | _ => None end)
    (effects st).

(** Nothing is pending: no timer, no first press, no handler running. *)
Definition idle (st : group_state) : Prop :=
  ETgroupTimer st = 0 /\ ETgroupSet st = false /\ eventRunning st = false.

(** A burst: a press, then for each gap that many milliseconds and
    another press. *)
Definition burst (gaps : list nat) : list input :=
  Logo :: concat (map (fun g => replicate g Ms ++ [Logo]) gaps).

(** [n] steps round the cycle 1, 2, ..., 9, 1, ... from [g]. *)
Definition cycle (g : Z) (n : nat) : Z := (g - 1 + Z.of_nat n) mod 9 + 1.

(** How often [control.raiseEvent] was called. *)
Definition raises (st : group_state) : nat :=
  length (omap (fun e => match e with RaiseEvent => Some tt | _ => None end)
            (effects st)).

(** *** Waiting *)

Inductive Button :=
| ButtonA
| ButtonB.

(** The clock [control.millis()] and the global [ETwaitAbort]. *)
Record wait_state := WaitState {
  clock : Z;
  ETwaitAbort : bool
}.

(** The handlers given to [input.onButtonPressed], as far as the flag
    goes. *)
Definition onButtonPressed (b : Button) (st : wait_state) : wait_state :=
  match b with
  | ButtonA => WaitState (clock st) false
  | ButtonB => WaitState (clock st) true
  end.

Section Waiting.

(** [presses t] is the button pressed during the millisecond that
    starts at clock [t], if any. *)
Variable presses : Z -> option Button.

(** [basic.pause(1)]: the button handler runs if a button is pressed,
    and a millisecond passes. *)
Definition pause1 (st : wait_state) : wait_state :=
  let st' :=
    match presses (clock st) with
    | Some b => onButtonPressed b st
    | None => st
    end in
  WaitState (clock st' + 1) (ETwaitAbort st').

(** The [while (control.millis() < tm)] loop of [wait]; the result is
    the state at the return and the number of pauses made. *)
Equations? waitLoop (tm : Z) (st : wait_state) (pauses : nat)
  : wait_state * nat by wf (Z.to_nat (tm - clock st)) lt :=
  waitLoop tm st pauses with Z_lt_dec (clock st) tm := {
    | left _ =>
        if ETwaitAbort st then (WaitState (clock st) false, pauses)
        else waitLoop tm (pause1 st) (S pauses)
    | right _ => (st, pauses) }.
Proof.
  unfold pause1. destruct (presses (clock st)) as [[]|]; simpl; lia.
Qed.

(** [General.wait(sec)] for a whole number of seconds. *)
Definition wait (sec : Z) (st : wait_state) : wait_state * nat :=
  let tm := clock st + sec * 1000 in
  waitLoop tm st 0.

End Waiting.

(** *** Start and stop handlers *)

(** A [handler] is a closure of the program, known by a name. *)
Definition handler := nat.

(** The abort flag with the clock, and the globals [ETstartHandlers],
    [ETstopHandlers], [ETbuttonAHandler] and [ETbuttonBHandler]. *)
Record button_state := ButtonState {
  waiting : wait_state;
  ETstartHandlers : list handler;
  ETstopHandlers : list handler;
  ETbuttonAHandler : option handler;
  ETbuttonBHandler : option handler
}.

(** [General.registerStartHandler(hnd)]: the new state and the returned
    number. *)
Definition registerStartHandler (hnd : handler) (st : button_state)
  : button_state * Z :=
  let handlers := ETstartHandlers st ++ [hnd] in
  (ButtonState (waiting st) handlers (ETstopHandlers st)
     (ETbuttonAHandler st) (ETbuttonBHandler st),
   Z.of_nat (length handlers) - 1).

(** [General.registerStopHandler(hnd)]. *)
Definition registerStopHandler (hnd : handler) (st : button_state)
  : button_state * Z :=
  let handlers := ETstopHandlers st ++ [hnd] in
  (ButtonState (waiting st) (ETstartHandlers st) handlers
     (ETbuttonAHandler st) (ETbuttonBHandler st),
   Z.of_nat (length handlers) - 1).

(** [General.onPressedA(code)] and [General.onPressedB(code)]. *)
Definition onPressedA (code : handler) (st : button_state) : button_state :=
  ButtonState (waiting st) (ETstartHandlers st) (ETstopHandlers st)
    (Some code) (ETbuttonBHandler st).

Definition onPressedB (code : handler) (st : button_state) : button_state :=
  ButtonState (waiting st) (ETstartHandlers st) (ETstopHandlers st)
    (ETbuttonAHandler st) (Some code).

(** The handlers given to [input.onButtonPressed] in full: the new state
    and the handlers called, in order. *)
Definition onButton (b : Button) (st : button_state)
  : button_state * list handler :=
  let st' := ButtonState (onButtonPressed b (waiting st)) (ETstartHandlers st)
               (ETstopHandlers st) (ETbuttonAHandler st) (ETbuttonBHandler st) in
  match b with
  | ButtonA =>
      (st', ETstartHandlers st
            ++ match ETbuttonAHandler st with Some hnd => [hnd] | None => [] end)
  | ButtonB =>
      (st', ETstopHandlers st
            ++ match ETbuttonBHandler st with Some hnd => [hnd] | None => [] end)
  end.

(** *** Two senders at once *)



End GeneralTs.

(** ** main.ts *)

Module MainTs.

Inductive Button :=
| ButtonA
| ButtonB.

(** The clock [control.millis()] and the global [WAITABORT]. *)
Record wait_state := WaitState {
  clock : Z;
  WAITABORT : bool
}.

Definition onButtonPressed (b : Button) (st : wait_state) : wait_state :=
  match b with
  | ButtonA => WaitState (clock st) false
  | ButtonB => WaitState (clock st) true
  end.

Section Waiting.

Variable presses : Z -> option Button.

Definition pause1 (st : wait_state) : wait_state :=
  let st' :=
    match presses (clock st) with
    | Some b => onButtonPressed b st
    | None => st
    end in
  WaitState (clock st' + 1) (WAITABORT st').

(** The loop of [wait]: the state at the return and the number of
    pauses made. *)
Equations? pollLoop (tm : Z) (st : wait_state) (pauses : nat)
  : wait_state * nat by wf (Z.to_nat (tm - clock st)) lt :=
  pollLoop tm st pauses with Z_lt_dec (clock st) tm := {
    | left _ =>
        if WAITABORT st then (st, pauses)
        else pollLoop tm (pause1 st) (S pauses)
    | right _ => (st, pauses) }.
Proof.
  unfold pause1. destruct (presses (clock st)) as [[]|]; simpl; lia.
Qed.

(** [General.wait(sec)] for a whole number of seconds. *)
Definition wait (sec : Z) (st : wait_state) : wait_state * nat :=
  let tm := clock st + sec * 1000 in
  pollLoop tm st 0.

(** [General.waitUntil(state)]. The loop need not end: [fuel] bounds
    the number of pauses, and [None] is a call that is still in its loop
    after that many. *)
Fixpoint waitUntil (fuel : nat) (state : bool) (st : wait_state)
  : option wait_state :=
  if negb state then
    if WAITABORT st then Some st
    else
      match fuel with
      | O => None
      | S fuel' => waitUntil fuel' state (pause1 st)
      end
  else Some st.

End Waiting.

(** *** Choosing the radio group, as main.ts does it *)

Inductive group_effect :=
| ShowNumber (n : Z)       (* basic.showNumber(n) *)
| RadioSetGroup (n : Z)    (* radio.setGroup(n) *)
| RaiseEvent               (* control.raiseEvent(EVENTID, 0) *)
| Displayed.               (* displayHandler(), or basic.showIcon(IconNames.Yes) *)

(** Where the handler of [EVENTID] is: not running, in its [while] loop,
    or in the [basic.pause(500)] of [displayGroup()] with that many
    milliseconds left. *)
Inductive phase :=
| NotRunning
| Polling
| Pausing (rest : nat).

(** The globals [GROUP] and [tm_group], the clock, the handler of
    [EVENTID] and the effects so far. *)
Record group_state := GroupState {
  GROUP : Z;
  tm_group : Z;
  millis : Z;
  running : phase;
  effects : list group_effect
}.

(** After the top-level [displayGroup()], with the clock at [now]. *)
Definition startup (now : Z) : group_state :=
  GroupState 1 0 now NotRunning [ShowNumber 1; Displayed].

(** The handler given to [input.onLogoEvent(TouchButtonEvent.Pressed, ...)]. *)
Definition onLogoEvent (st : group_state) : group_state :=
  let group := GROUP st + 1 in
  let group := if group >? 9 then 1 else group in
  let out := effects st ++ [RadioSetGroup group; ShowNumber group] in
  if tm_group st =? 0 then
    GroupState group (millis st + 1000) (millis st) Polling (out ++ [RaiseEvent])
  else
    GroupState group (millis st + 1000) (millis st) (running st) out.

(** The handler given to [control.onEvent(EVENTID, 0, ...)], after a
    pause of 1 ms has ended. *)
Definition onEventResume (st : group_state) : group_state :=
  match running st with
  | NotRunning => st
  | Polling =>
      if tm_group st >? millis st then st
      else GroupState (GROUP st) (tm_group st) (millis st) (Pausing 500)
             (effects st ++ [ShowNumber (GROUP st)])
  | Pausing (S (S rest)) =>
      GroupState (GROUP st) (tm_group st) (millis st) (Pausing (S rest))
        (effects st)
  | Pausing _ =>
      GroupState (GROUP st) 0 (millis st) NotRunning (effects st ++ [Displayed])
  end.

Inductive input :=
| Logo
| Ms.

Definition step (st : group_state) (i : input) : group_state :=
  match i with
  | Logo => onLogoEvent st
  | Ms =>
      onEventResume
        (GroupState (GROUP st) (tm_group st) (millis st + 1) (running st)
           (effects st))
  end.

Definition run (ins : list input) (st : group_state) : group_state :=
  foldl step st ins.

(** How often the logo is pressed in [ins]. *)
Definition presses_in (ins : list input) : nat :=
  length (omap (fun i => match i with Logo => Some tt | Ms => None end) ins).

(** How often [displayGroup()] has come to its end. *)
Definition displays (st : group_state) : nat :=
  length (omap (fun e => match e with Displayed => Some tt | _ => None end)
            (effects st)).

(** A burst: a press, then for each gap that many milliseconds and
    another press. *)
Definition burst (gaps : list nat) : list input :=
  Logo :: concat (map (fun g => replicate g Ms ++ [Logo]) gaps).

End MainTs.

(** ** Colours

    The colour section is the same in both files. *)

(** [enum Color], used as [Color.Red]. *)
Module Color.

Inductive t :=
| None
| Red
| Green
| Blue
| Yellow
| Cyan
| Magenta
| Black
| DarkGrey
| Grey
| LightGrey
| White
| Orange
| Brown
| Pink
| Indigo
| Violet
| Purple.

(** The members in the order of the declaration. *)
Definition all : list t :=
  [None; Red; Green; Blue; Yellow; Cyan; Magenta; Black; DarkGrey; Grey;
   LightGrey; White; Orange; Brown; Pink; Indigo; Violet; Purple].

End Color.

Module Colors.

(** *** Bit operators on integers

    The operands of [&], [|], [<<] and [>>] are taken as 32-bit signed
    integers, and so is the result. *)

Definition toInt32 (x : Z) : Z := (x + 2 ^ 31) mod 2 ^ 32 - 2 ^ 31.

Definition bitand (a b : Z) : Z := Z.land (toInt32 a) (toInt32 b).

Definition bitor (a b : Z) : Z := Z.lor (toInt32 a) (toInt32 b).

Definition shl (a n : Z) : Z := toInt32 (Z.shiftl (toInt32 a) (n mod 32)).

Definition shr (a n : Z) : Z := Z.shiftr (toInt32 a) (n mod 32).

(** *** Packing and unpacking *)

Definition rgbValues (red green blue : Z) : Z :=
  let rgb := bitor (bitor (shl (bitand red 255) 16) (shl (bitand green 255) 8))
               (bitand blue 255) in
  rgb.

Definition redValue (rgb : Z) : Z :=
  let r := bitand (shr rgb 16) 255 in
  r.

Definition greenValue (rgb : Z) : Z :=
  let g := bitand (shr rgb 8) 255 in
  g.

Definition blueValue (rgb : Z) : Z :=
  let b := bitand rgb 255 in
  b.

(** The [switch] of [fromColor]; a colour without a [case] keeps [val = 0]. *)
Definition fromColor (color : Color.t) : Z :=
  match color with
  | Color.Red => 0xFF0000
  | Color.Green => 0x00FF00
  | Color.Blue => 0x0000FF
  | Color.Yellow => 0xFFFF00
  | Color.Cyan => 0x00FFFF
  | Color.Magenta => 0xFF00FF
  | Color.Black => 0x000000
  | Color.DarkGrey => 0xA9A9A9
  | Color.Grey => 0x808080
  | Color.LightGrey => 0xD3D3D3
  | Color.White => 0xFFFFFF
  | Color.Orange => 0xFFA500
  | Color.Brown => 0xA52A2A
  | Color.Pink => 0xFFC0CB
  | Color.Indigo => 0x4b0082
  | Color.Violet => 0x8a2be2
  | Color.Purple => 0x800080
  | Color.None => 0
  end.

(** *** From red, green and blue to a colour name

    The hue is a double. [number z] is the double of the integer [z], exact
    up to 2^53 in absolute value. *)

Definition number (z : Z) : PrimFloat.float :=
  if z <? 0 then PrimFloat.opp (PrimFloat.of_uint63 (Uint63.of_Z (- z)))
  else PrimFloat.of_uint63 (Uint63.of_Z z).

(** [(k + a / b) * 60] as the code computes it. *)
Definition hueOf (k a b : Z) : PrimFloat.float :=
  PrimFloat.mul
    (PrimFloat.add (number k) (PrimFloat.div (number a) (number b)))
    (number 60).

(** The chain of [if (hue ...) return ...]. *)
Definition colorOfHue (hue : PrimFloat.float) : Color.t :=
  if PrimFloat.eqb hue (number 0) then Color.White
  else if PrimFloat.ltb hue (number 5) then Color.Orange
  else if PrimFloat.ltb hue (number 30) then Color.Brown
  else if PrimFloat.ltb hue (number 100) then Color.Yellow
  else if PrimFloat.ltb hue (number 190) then Color.Green
  else if PrimFloat.ltb hue (number 206) then Color.Cyan
  else if PrimFloat.ltb hue (number 213) then Color.Blue
  else if PrimFloat.ltb hue (number 217) then Color.Black
  else if PrimFloat.ltb hue (number 230) then Color.Indigo
  else if PrimFloat.ltb hue (number 255) then Color.Purple
  else if PrimFloat.ltb hue (number 272) then Color.Pink
  else if PrimFloat.ltb hue (number 300) then Color.Magenta
  else Color.Red.

(** [fromRgbValues(red, green, blue)] for integers. *)
Definition fromRgbValues (red green blue : Z) : Color.t :=
  let max := -1 in
  let min := -1 in
  let hue := number 0 in
  let max := if (red >? green) && (red >? blue) then red else max in
  let max := if (green >? red) && (green >? blue) then green else max in
  let max := if (blue >? red) && (blue >? green) then blue else max in
  let min := if (red <? green) && (red <? blue) then red else min in
  let min := if (green <? red) && (green <? blue) then green else min in
  let min := if (blue <? red) && (blue <? green) then blue else min in
  let hue := if red =? max then hueOf 0 (green - blue) (max - min) else hue in
  let hue := if green =? max then hueOf 2 (blue - red) (max - min) else hue in
  let hue := if blue =? max then hueOf 4 (red - green) (max - min) else hue in
  let hue := if PrimFloat.ltb hue (number 0)
             then PrimFloat.add hue (number 360) else hue in
  colorOfHue hue.

Definition fromRgb (rgb : Z) : Color.t :=
  let red := redValue rgb in
  let green := greenValue rgb in
  let blue := blueValue rgb in
  fromRgbValues red green blue.

End Colors.

(** * Properties *)

(** Linear arithmetic with division and remainder by constants. *)
Ltac div_lia := zify; Z.to_euclidean_division_equations; lia.

(** ** Strings *)

Section JsFacts.

Implicit Types s t : jsstring.

Lemma take_eq_when_covering {A} (l : list A) (n m : nat) :
  n = m \/ (length l <= n /\ length l <= m)%nat -> take n l = take m l.
Proof.
  intros [-> | [Hn Hm]]; [reflexivity |].
  rewrite !take_ge by lia. reflexivity.
Qed.

Lemma drop_eq_when_covering {A} (l : list A) (n m : nat) :
  n = m \/ (length l <= n /\ length l <= m)%nat -> drop n l = drop m l.
Proof.
  intros [-> | [Hn Hm]]; [reflexivity |].
  rewrite !drop_ge by lia. reflexivity.
Qed.

(** [s.substr(start, n)] from a position inside the string. *)
Lemma substr_mid s (start n : Z) :
  0 <= start ->
  substr s start (Some n) = take (Z.to_nat n) (drop (Z.to_nat start) s).
Proof.
  intros Hs. unfold substr, len.
  destruct (Z.ltb_spec start 0) as [? | _]; [lia |].
  destruct (Z_le_gt_dec (Z.of_nat (length s)) start) as [Hbig | Hsmall].
  - rewrite (drop_ge s (Z.to_nat start)) by lia.
    rewrite take_nil. rewrite drop_ge by lia. apply take_nil.
  - replace (Z.to_nat (start `min` Z.of_nat (length s))) with (Z.to_nat start)
      by lia.
    apply take_eq_when_covering. rewrite length_drop. lia.
Qed.

(** [s.substr(0, n)] is the first [n] characters. *)
Lemma substr_prefix s (n : Z) :
  substr s 0 (Some n) = take (Z.to_nat n) s.
Proof. rewrite substr_mid by lia. reflexivity. Qed.

(** [s.substr(n)] is what follows the first [n] characters. *)
Lemma substr_suffix s (n : Z) :
  0 <= n -> substr s n None = drop (Z.to_nat n) s.
Proof.
  intros Hn. unfold substr, len.
  destruct (Z.ltb_spec n 0) as [? | _]; [lia |].
  rewrite take_ge by (rewrite length_drop; lia).
  apply drop_eq_when_covering. lia.
Qed.

(** [s.substr(s.length - 1)] is the last character, or nothing. *)
Lemma substr_last s :
  substr s (len s - 1) None = drop (length s - 1) s.
Proof.
  destruct s as [| c s]; [reflexivity |].
  rewrite substr_suffix by (unfold len; simpl; lia).
  f_equal. unfold len. simpl. lia.
Qed.

End JsFacts.

(** ** Sending *)

Section Sending.

Import GeneralTs.
Implicit Types idstr msg u : jsstring.

Lemma nextUnit_eq idstr msg :
  nextUnit idstr msg =
  idstr ++ take 17 msg ++ (if (length msg <? 17)%nat then [tilde] else []).
Proof.
  unfold nextUnit. rewrite substr_prefix. change (Z.to_nat 17) with 17%nat.
  rewrite length_take.
  destruct (Nat.ltb_spec (17 `min` length msg) 17),
           (Nat.ltb_spec (length msg) 17); try lia.
  - reflexivity.
  - rewrite app_nil_r. reflexivity.
Qed.

(** One pass of the loop, and the test that decides on another. *)
Lemma sendLoop_unfold idstr msg :
  sendLoop idstr msg =
  SendString (nextUnit idstr msg) :: Pause 1
    :: (if (17 <? length msg)%nat then sendLoop idstr (drop 17 msg) else []).
Proof.
  rewrite sendLoop_equation_1.
  destruct (lt_dec 0 (length (substr msg 17 None))) as [Hlt | Hge];
    simpl; rewrite substr_suffix in * by lia;
    change (Z.to_nat 17) with 17%nat in *; rewrite length_drop in *.
  - destruct (Nat.ltb_spec 17 (length msg)); [reflexivity | lia].
  - destruct (Nat.ltb_spec 17 (length msg)); [lia | reflexivity].
Qed.

Lemma units_sendLoop idstr msg :
  units (sendLoop idstr msg) =
  nextUnit idstr msg
    :: (if (17 <? length msg)%nat then units (sendLoop idstr (drop 17 msg))
        else []).
Proof.
  rewrite sendLoop_unfold at 1. unfold units. simpl.
  destruct (17 <? length msg)%nat; reflexivity.
Qed.

(** Induction on a message by chunks of 17 characters. *)
Lemma chunk_ind (P : jsstring -> Prop) :
  (forall msg, (length msg <= 17)%nat -> P msg) ->
  (forall msg, (17 < length msg)%nat -> P (drop 17 msg) -> P msg) ->
  forall msg, P msg.
Proof.
  intros Hlast Hmore msg.
  remember (length msg) as n eqn:Hn. revert msg Hn.
  induction n as [n IH] using lt_wf_ind. intros msg ->.
  destruct (le_lt_dec (length msg) 17) as [Hle | Hlt].
  - apply Hlast, Hle.
  - apply Hmore; [exact Hlt |].
    apply (IH (length (drop 17 msg))); [rewrite length_drop; lia | reflexivity].
Qed.

(** The id string of a valid id has two characters. *)
Lemma idstrOf_length (id : Z) :
  1 <= id <= 99 -> length (idstrOf id) = 2%nat.
Proof.
  intros Hid.
  assert (Hall : forallb (fun n => (length (idstrOf (Z.of_nat n)) =? 2)%nat)
                   (seq 1 99) = true) by (vm_compute; reflexivity).
  rewrite forallb_forall in Hall.
  specialize (Hall (Z.to_nat id)).
  rewrite Z2Nat.id in Hall by lia.
  apply Nat.eqb_eq, Hall, in_seq. lia.
Qed.

Lemma sendRadioMessage_valid msg (id : Z) :
  1 <= id <= 99 -> sendRadioMessage msg id = sendLoop (idstrOf id) msg.
Proof.
  intros Hid. unfold sendRadioMessage.
  destruct (Z.leb_spec id 0); [lia |].
  destruct (Z.geb_spec id 100); [lia |]. reflexivity.
Qed.

Lemma sendRadioMessage_invalid msg (id : Z) :
  id <= 0 \/ 100 <= id -> sendRadioMessage msg id = [].
Proof.
  intros Hid. unfold sendRadioMessage.
  destruct (Z.leb_spec id 0); [reflexivity |].
  destruct (Z.geb_spec id 100); [reflexivity | lia].
Qed.

Lemma nextUnit_length idstr msg :
  length (nextUnit idstr msg) =
  (length idstr + if (length msg <? 17)%nat then length msg + 1 else 17)%nat.
Proof.
  rewrite nextUnit_eq, !length_app, length_take.
  destruct (Nat.ltb_spec (length msg) 17); cbn [length]; lia.
Qed.

Lemma sendLoop_units_bounded idstr msg :
  Forall (fun u => (length u <= length idstr + 17)%nat)
    (units (sendLoop idstr msg)).
Proof.
  induction msg as [msg Hle | msg Hlt IH] using chunk_ind;
    rewrite units_sendLoop; constructor.
  - rewrite nextUnit_length. destruct (Nat.ltb_spec (length msg) 17); lia.
  - destruct (Nat.ltb_spec 17 (length msg)); [lia | constructor].
  - rewrite nextUnit_length. destruct (Nat.ltb_spec (length msg) 17); lia.
  - destruct (Nat.ltb_spec 17 (length msg)); [exact IH | constructor].
Qed.

(** The shape of what the loop sends: full units of [idstr] and 17
    characters, then a last unit. *)
Lemma sendLoop_units_shape idstr msg :
  exists firsts lastu,
    units (sendLoop idstr msg) = firsts ++ [lastu] /\
    S (length firsts) = ((Nat.max (length msg) 1 + 16) / 17)%nat /\
    Forall (fun u => length u = (length idstr + 17)%nat) firsts /\
    length lastu =
      (length idstr +
       if ((length msg mod 17 =? 0) && (0 <? length msg))%nat then 17
       else length msg mod 17 + 1)%nat /\
    ((length msg mod 17 <> 0)%nat \/ msg = [] -> last lastu = Some tilde).
Proof.
  induction msg as [msg Hle | msg Hlt IH] using chunk_ind;
    rewrite units_sendLoop.
  - destruct (Nat.ltb_spec 17 (length msg)) as [? | _]; [lia |].
    exists [], (nextUnit idstr msg). split; [reflexivity |].
    split; [| split; [constructor | split]].
    + cbn [length]. div_lia.
    + rewrite nextUnit_length.
      destruct (Nat.ltb_spec (length msg) 17) as [Hlt | Hge],
               (Nat.eqb_spec (length msg mod 17) 0),
               (Nat.ltb_spec 0 (length msg)); cbn [andb]; div_lia.
    + intros Hmod. rewrite nextUnit_eq.
      destruct (Nat.ltb_spec (length msg) 17) as [_ | Hge].
      * rewrite app_assoc. apply last_snoc.
      * exfalso. destruct Hmod as [Hmod | ->]; [| simpl in Hge; lia].
        apply Hmod. replace (length msg) with 17%nat by lia. reflexivity.
  - destruct (Nat.ltb_spec 17 (length msg)) as [_ | ?]; [| lia].
    destruct IH as (firsts & lastu & Hunits & Hcount & Hfirsts & Hlast & Hterm).
    rewrite length_drop in Hcount, Hlast, Hterm.
    exists (nextUnit idstr msg :: firsts), lastu.
    split; [rewrite Hunits; reflexivity |].
    split; [| split; [| split]].
    + cbn [length]. div_lia.
    + constructor; [| exact Hfirsts].
      rewrite nextUnit_length.
      destruct (Nat.ltb_spec (length msg) 17); lia.
    + rewrite Hlast.
      destruct (Nat.eqb_spec ((length msg - 17) mod 17) 0),
               (Nat.eqb_spec (length msg mod 17) 0),
               (Nat.ltb_spec 0 (length msg - 17)),
               (Nat.ltb_spec 0 (length msg)); cbn [andb]; div_lia.
    + intros Hmod. apply Hterm. left.
      destruct Hmod as [Hmod | ->]; [div_lia | simpl in Hlt; lia].
Qed.

Lemma sendLoop_units_layout idstr msg :
  Forall (fun u => exists chunk,
              (length chunk <= 17)%nat /\
              u = idstr ++ chunk
                    ++ (if (length chunk <? 17)%nat then [tilde] else []))
    (units (sendLoop idstr msg)).
Proof.
  assert (Hone : forall m, exists chunk,
             (length chunk <= 17)%nat /\
             nextUnit idstr m =
             idstr ++ chunk
               ++ (if (length chunk <? 17)%nat then [tilde] else [])).
  { intros m. exists (take 17 m). rewrite length_take. split; [lia |].
    rewrite nextUnit_eq.
    destruct (Nat.ltb_spec (length m) 17),
             (Nat.ltb_spec (17 `min` length m) 17); try lia; reflexivity. }
  induction msg as [msg Hle | msg Hlt IH] using chunk_ind;
    rewrite units_sendLoop; constructor; try apply Hone.
  - destruct (Nat.ltb_spec 17 (length msg)); [lia | constructor].
  - destruct (Nat.ltb_spec 17 (length msg)); [exact IH | constructor].
Qed.

(** Claim C7. Every transmission unit [sendRadioMessage] sends, for every
    message and every id, has at most 19 characters: a 2-character id, a
    chunk of at most 17 characters and the terminator ['~'] exactly when
    the chunk is shorter than 17. *)
Theorem sendRadioMessage_units_at_most_19 msg (id : Z) :
  Forall (fun u =>
            (length u <= 19)%nat /\
            exists idstr chunk,
              length idstr = 2%nat /\ (length chunk <= 17)%nat /\
              u = idstr ++ chunk
                    ++ (if (length chunk <? 17)%nat then [tilde] else []))
    (units (sendRadioMessage msg id)).
Proof.
  destruct (decide (1 <= id <= 99)) as [Hid | Hid].
  - rewrite sendRadioMessage_valid by exact Hid.
    pose proof (idstrOf_length id Hid) as Hlen.
    pose proof (sendLoop_units_bounded (idstrOf id) msg) as Hb.
    pose proof (sendLoop_units_layout (idstrOf id) msg) as Hl.
    rewrite Forall_forall in *. intros u Hu. split.
    + specialize (Hb u Hu). lia.
    + destruct (Hl u Hu) as (chunk & Hc & ->). eauto.
  - rewrite sendRadioMessage_invalid by lia. constructor.
Qed.

(** Claim C3, as the code has it. No unit has more than 19 characters,
    so the last unit of a message of 17, 34, ... characters cannot have the
    [2 + 17 + 1] of the claim. For every other message and a valid id,
    [sendRadioMessage] sends ceil(max(len, 1) / 17) units; all but the last
    have 19 characters; the last has [2 + len mod 17 + 1] characters and
    ends in the terminator. The empty message gives one unit of 3
    characters. *)
Theorem sendRadioMessage_unit_count_and_lengths msg (id : Z) :
  1 <= id <= 99 ->
  (length msg mod 17 <> 0)%nat \/ msg = [] ->
  Forall (fun u => (length u <= 19)%nat) (units (sendRadioMessage msg id)) /\
  exists firsts lastu,
    units (sendRadioMessage msg id) = firsts ++ [lastu] /\
    S (length firsts) = ((Nat.max (length msg) 1 + 16) / 17)%nat /\
    Forall (fun u => length u = 19%nat) firsts /\
    length lastu = (2 + length msg mod 17 + 1)%nat /\
    last lastu = Some tilde /\
    (msg = [] -> firsts = [] /\ length lastu = 3%nat).
Proof.
  intros Hid Hmod. rewrite sendRadioMessage_valid by exact Hid.
  pose proof (idstrOf_length id Hid) as Hlen.
  split.
  { eapply Forall_impl; [apply sendLoop_units_bounded |].
    simpl. intros u Hu. lia. }
  destruct (sendLoop_units_shape (idstrOf id) msg)
    as (firsts & lastu & Hunits & Hcount & Hfirsts & Hlast & Hterm).
  exists firsts, lastu. rewrite Hlen in *.
  split; [exact Hunits |]. split; [exact Hcount |].
  split; [exact Hfirsts |]. split; [| split; [exact (Hterm Hmod) |]].
  - rewrite Hlast.
    destruct Hmod as [Hmod | ->]; [| reflexivity].
    destruct (Nat.eqb_spec (length msg mod 17) 0); [contradiction |].
    cbn [andb]. lia.
  - intros ->. split; [| rewrite Hlast; reflexivity].
    destruct firsts; [reflexivity |].
    cbn [length] in Hcount.
    change ((0 `max` 1 + 16) `div` 17)%nat with 1%nat in Hcount. lia.
Qed.

Lemma sendRadioMessage_unit_count_and_lengths_witness :
  1 <= 42 <= 99 /\
  exists firsts lastu,
    units (sendRadioMessage (str "a message of 24 letters.") 42)
    = firsts ++ [lastu] /\
    S (length firsts) = 2%nat /\
    Forall (fun u => length u = 19%nat) firsts /\
    length lastu = 10%nat /\
    last lastu = Some tilde /\
    (str "a message of 24 letters." = [] ->
     firsts = [] /\ length lastu = 3%nat).
Proof.
  split; [lia |].
  exact (proj2 (sendRadioMessage_unit_count_and_lengths
                  (str "a message of 24 letters.") 42 ltac:(lia)
                  ltac:(left; vm_compute; lia))).
Defined.

(** Claim C3 as written fails on a message of 17 characters: the one
    unit sent has 19 characters, not [2 + 17 + 1]. *)
Lemma sendRadioMessage_full_chunk_unit_is_19 :
  let msg := str "seventeen letters" in
  length msg = 17%nat /\
  exists u,
    units (sendRadioMessage msg 1) = [u] /\
    length u = 19%nat /\
    length u <>
      (2 + (if (length msg mod 17 =? 0)%nat then 17 else length msg mod 17)
       + 1)%nat.
Proof.
  split; [reflexivity |].
  eexists. split; [vm_compute; reflexivity |].
  split; [reflexivity | vm_compute; lia].
Qed.

End Sending.

(** ** The registry and the receive handler *)

Section Receiving.

Import GeneralTs.
Implicit Types (st : registry) (msg idstr chunk text : jsstring).
Implicit Types (hnd : option strhandler).

Lemma normalizeId_cases id :
  normalizeId id =
  match id with
  | [] => str "ET"
  | [c] => [c; "#"%char]
  | c1 :: c2 :: _ => [c1; c2]
  end.
Proof.
  destruct id as [| c1 [| c2 [| c3 rest]]]; try reflexivity.
  unfold normalizeId. cbn [length]. rewrite substr_prefix. reflexivity.
Qed.

Lemma normalizeId_length id : length (normalizeId id) = 2%nat.
Proof.
  rewrite normalizeId_cases.
  destruct id as [| c1 [| c2 rest]]; reflexivity.
Qed.


Lemma scanIds_le idstr ids : (scanIds idstr ids <= length ids)%nat.
Proof.
  induction ids as [| x ids IH]; simpl; [lia |].
  destruct (bool_decide (idstr = x)); simpl; lia.
Qed.


Lemma scanIds_absent idstr ids :
  scanIds idstr ids = length ids <-> idstr ∉ ids.
Proof.
  induction ids as [| x ids IH]; simpl.
  - split; [intros _; apply not_elem_of_nil | reflexivity].
  - rewrite not_elem_of_cons.
    destruct (bool_decide_reflect (idstr = x)) as [-> | Hne].
    + split; [discriminate | intros [[] _]; reflexivity].
    + split.
      * intros H. split; [exact Hne |]. apply IH. lia.
      * intros [_ H]. f_equal. apply IH, H.
Qed.

Lemma array_set_inside {A} (a : list (option A)) (ix : nat) (v : A) :
  (ix < length a)%nat -> array_set a ix v = <[ix := Some v]> a.
Proof.
  intros H. unfold array_set.
  destruct (Nat.ltb_spec ix (length a)); [reflexivity | lia].
Qed.

Lemma registerMessageHandler_ok id hnd st :
  registry_ok st -> registry_ok (fst (registerMessageHandler id hnd st)).
Proof.
  intros [Hm Hh Ht Hi]. split; simpl.
  - rewrite !length_app, Hm. reflexivity.
  - rewrite !length_app, Hh. reflexivity.
  - apply Forall_app. split; [exact Ht |]. repeat constructor. eauto.
  - apply Forall_app. split; [exact Hi |]. repeat constructor.
    apply normalizeId_length.
Qed.

Lemma deliver_ok ix chunk msgend st :
  registry_ok st -> (ix < length (ETradioIds st))%nat ->
  registry_ok (state_of (deliver ix chunk msgend st)).
Proof.
  intros [Hm Hh Ht Hi] Hix. unfold deliver.
  assert (Hset : forall text,
             registry_ok (Registry (ETradioIds st)
                            (array_set (ETradioMsgs st) ix text)
                            (ETradioHandlers st) (ETradioHandler st))).
  { intros text. rewrite array_set_inside by lia. split; simpl.
    - rewrite length_insert. exact Hm.
    - exact Hh.
    - apply Forall_insert; [exact Ht | eauto].
    - exact Hi. }
  destruct msgend; simpl; [| apply Hset].
  destruct (array_get (ETradioHandlers st) ix); simpl; [| apply Hset].
  rewrite array_set_inside by (rewrite array_set_inside, length_insert; lia).
  rewrite array_set_inside by lia.
  rewrite list_insert_insert_eq. rewrite <- array_set_inside by lia.
  apply Hset.
Qed.

Lemma onReceivedString_ok msg st :
  registry_ok st -> registry_ok (state_of (onReceivedString msg st)).
Proof.
  intros Hok. unfold onReceivedString.
  pose proof (scanIds_le (substr msg 0 (Some 2)) (ETradioIds st)) as Hle.
  destruct (Nat.eqb_spec (scanIds (substr msg 0 (Some 2)) (ETradioIds st))
              (length (ETradioIds st))) as [Heq | Hne].
  - destruct (jsle _ _ || jsge _ _); [exact Hok |].
    apply deliver_ok; [apply registerMessageHandler_ok, Hok |].
    simpl. rewrite length_app. simpl. lia.
  - apply deliver_ok; [exact Hok | lia].
Qed.

Lemma reachable_ok st : reachable st -> registry_ok st.
Proof.
  induction 1 as [| st code _ IH | st id hnd _ IH | st msg _ IH].
  - split; simpl; constructor.
  - destruct IH. split; assumption.
  - apply registerMessageHandler_ok, IH.
  - apply onReceivedString_ok, IH.
Qed.

(** **** A unit for a registered id *)

Section Registered.

Variables (st : registry) (idstr acc : jsstring) (ix : nat) (h : strhandler).
Hypothesis Hid : length idstr = 2%nat.
Hypothesis Hscan : scanIds idstr (ETradioIds st) = ix.
Hypothesis Hix : (ix < length (ETradioIds st))%nat.
Hypothesis Hacc : ETradioMsgs st !! ix = Some (Some acc).
Hypothesis Hhnd : ETradioHandlers st !! ix = Some (Some h).

Lemma deliver_registered chunk msgend :
  deliver ix chunk msgend st =
  if msgend then Returned (withText ix [] st) [(h, acc ++ chunk)]
  else Returned (withText ix (acc ++ chunk) st) [].
Proof.
  assert (Hlt : (ix < length (ETradioMsgs st))%nat)
    by (apply lookup_lt_is_Some; eauto).
  unfold deliver, array_get. rewrite Hacc. simpl.
  rewrite Hhnd. simpl.
  rewrite (array_set_inside (ETradioMsgs st)) by exact Hlt.
  rewrite array_set_inside by (rewrite length_insert; exact Hlt).
  rewrite list_insert_insert_eq. reflexivity.
Qed.

(** A unit that does not end in ['~'] adds its chunk to the text. *)
Lemma onReceivedString_chunk chunk (x : ascii) :
  x <> tilde ->
  onReceivedString (idstr ++ chunk ++ [x]) st =
  Returned (withText ix (acc ++ chunk ++ [x]) st) [].
Proof.
  intros Hx. unfold onReceivedString.
  rewrite substr_prefix, substr_last, !substr_mid by lia.
  change (Z.to_nat 2) with 2%nat. change (Z.to_nat 0) with 0%nat.
  rewrite (take_app_length' idstr _ 2) by (symmetry; exact Hid).
  rewrite Hscan.
  destruct (Nat.eqb_spec ix (length (ETradioIds st))) as [? | _]; [lia |].
  rewrite (drop_app_length' idstr _ 2) by (symmetry; exact Hid).
  replace (drop _ (idstr ++ chunk ++ [x])) with [x].
  2:{ rewrite !app_assoc. symmetry. apply drop_app_length'.
      rewrite !length_app. simpl. lia. }
  destruct (bool_decide_reflect ([x] = str "~")) as [Heq | _].
  { exfalso. apply Hx. injection Heq as ->. reflexivity. }
  rewrite deliver_registered. f_equal. f_equal. f_equal.
  apply take_ge. unfold len. rewrite !length_app. simpl. lia.
Qed.

(** A unit that ends in ['~'] completes the text and hands it over. *)
Lemma onReceivedString_final chunk :
  onReceivedString (idstr ++ chunk ++ [tilde]) st =
  Returned (withText ix [] st) [(h, acc ++ chunk)].
Proof.
  unfold onReceivedString.
  rewrite substr_prefix, substr_last, !substr_mid by lia.
  change (Z.to_nat 2) with 2%nat.
  rewrite (take_app_length' idstr _ 2) by (symmetry; exact Hid).
  rewrite Hscan.
  destruct (Nat.eqb_spec ix (length (ETradioIds st))) as [? | _]; [lia |].
  rewrite (drop_app_length' idstr _ 2) by (symmetry; exact Hid).
  replace (drop _ (idstr ++ chunk ++ [tilde])) with [tilde].
  2:{ rewrite !app_assoc. symmetry. apply drop_app_length'.
      rewrite !length_app. simpl. lia. }
  destruct (bool_decide_reflect ([tilde] = str "~")) as [_ | Hne];
    [| exfalso; apply Hne; reflexivity].
  rewrite deliver_registered. f_equal. f_equal. f_equal. f_equal.
  apply take_app_length'. unfold len. rewrite !length_app. simpl. lia.
Qed.

End Registered.

(** **** Send, then receive *)

Lemma withText_withText ix text text' st :
  withText ix text (withText ix text' st) = withText ix text st.
Proof. unfold withText. simpl. rewrite list_insert_insert_eq. reflexivity. Qed.

(** Where the round trip works: the message holds no ['~'] and its
    length is not a positive multiple of 17. The units of the loop, given
    in order to a registry that has [idstr] at [ix] with text [acc], make
    one call, of the handler at [ix], with [acc] and the whole message. *)
Lemma sendLoop_roundtrip idstr (ix : nat) (h : strhandler) msg :
  length idstr = 2%nat ->
  tilde ∉ msg ->
  (length msg mod 17 <> 0)%nat \/ msg = [] ->
  forall acc st,
    scanIds idstr (ETradioIds st) = ix ->
    (ix < length (ETradioIds st))%nat ->
    ETradioMsgs st !! ix = Some (Some acc) ->
    ETradioHandlers st !! ix = Some (Some h) ->
    receiveAll (units (sendLoop idstr msg)) st
    = Returned (withText ix [] st) [(h, acc ++ msg)].
Proof.
  intros Hid.
  induction msg as [msg Hle | msg Hlt IH] using chunk_ind;
    intros Htilde Hmod acc st Hscan Hix Hacc Hhnd; rewrite units_sendLoop.
  - destruct (Nat.ltb_spec 17 (length msg)) as [? | _]; [lia |].
    assert (Hshort : (length msg < 17)%nat).
    { destruct Hmod as [Hmod | ->]; [| simpl; lia].
      destruct (decide (length msg = 17%nat)) as [E | ?]; [| lia].
      rewrite E in Hmod. contradiction. }
    rewrite nextUnit_eq, take_ge by lia.
    destruct (Nat.ltb_spec (length msg) 17) as [_ | ?]; [| lia].
    cbn [receiveAll].
    rewrite (onReceivedString_final st idstr acc ix h) by assumption.
    reflexivity.
  - destruct (Nat.ltb_spec 17 (length msg)) as [_ | ?]; [| lia].
    rewrite nextUnit_eq.
    destruct (Nat.ltb_spec (length msg) 17) as [? | _]; [lia |].
    destruct (lookup_lt_is_Some_2 msg 16 ltac:(lia)) as [x Hx].
    rewrite (take_S_r msg 16 x Hx), app_nil_r.
    assert (Hne : x <> tilde).
    { intros ->. apply Htilde. eapply list_elem_of_lookup_2, Hx. }
    cbn [receiveAll].
    rewrite (onReceivedString_chunk st idstr acc ix h) by assumption.
    rewrite (IH ltac:(intros Hin; apply Htilde; eapply subseteq_drop, Hin)
                ltac:(left; rewrite length_drop; clear -Hmod Hlt;
                      destruct Hmod as [? | ->]; [div_lia | simpl in Hlt; lia])
                (acc ++ take 16 msg ++ [x])
                (withText ix (acc ++ take 16 msg ++ [x]) st));
      try assumption.
    + rewrite withText_withText. simpl. f_equal. f_equal. f_equal.
      rewrite <- (take_S_r msg 16 x Hx), <- app_assoc, take_drop.
      reflexivity.
    + simpl. apply list_lookup_insert_eq. apply lookup_lt_is_Some. eauto.
Qed.

(** The same for [sendRadioMessage] and a registry that has the id of
    the message with an empty text. *)
Lemma sendRadioMessage_roundtrip msg (id : Z) (ix : nat) (h : strhandler) st :
  1 <= id <= 99 ->
  tilde ∉ msg ->
  (length msg mod 17 <> 0)%nat \/ msg = [] ->
  scanIds (idstrOf id) (ETradioIds st) = ix ->
  (ix < length (ETradioIds st))%nat ->
  ETradioMsgs st !! ix = Some (Some []) ->
  ETradioHandlers st !! ix = Some (Some h) ->
  receiveAll (units (sendRadioMessage msg id)) st
  = Returned (withText ix [] st) [(h, msg)].
Proof.
  intros Hid Htilde Hmod Hscan Hix Hacc Hhnd.
  rewrite sendRadioMessage_valid by exact Hid.
  apply (sendLoop_roundtrip (idstrOf id) ix h msg
           (idstrOf_length id Hid) Htilde Hmod [] st Hscan Hix Hacc Hhnd).
Qed.

(** Claim C1 fails on a message of 17 characters: its one unit carries
    no ['~'], the receiver keeps the text and calls no handler. *)
Theorem sendRadioMessage_roundtrip_lost_at_17 :
  let s := str "seventeen letters" in
  let st := fst (registerMessageHandler (str "01") (Some 7%nat) emptyRegistry) in
  (length s <= 500)%nat /\
  units (sendRadioMessage s 1) = [str "01seventeen letters"] /\
  receiveAll (units (sendRadioMessage s 1)) st
  = Returned (Registry [str "01"] [Some s] [Some 7%nat] None) [].
Proof.
  split; [vm_compute; lia |].
  split; vm_compute; reflexivity.
Qed.

(** **** Units for an id that is not registered *)

Lemma deliver_keeps ix chunk msgend st :
  ETradioIds (state_of (deliver ix chunk msgend st)) = ETradioIds st /\
  ETradioHandlers (state_of (deliver ix chunk msgend st)) = ETradioHandlers st.
Proof.
  unfold deliver. destruct msgend; simpl; [| split; reflexivity].
  destruct (array_get (ETradioHandlers st) ix); split; reflexivity.
Qed.

(** A number at or below 0, or at or above 100: the unit is dropped and
    nothing changes. *)
Lemma onReceivedString_unknown_dropped msg st (q : Q) :
  substr msg 0 (Some 2) ∉ ETradioIds st ->
  toNumber (substr msg 0 (Some 2)) = Num q ->
  (q <= 0 \/ 100 <= q)%Q ->
  onReceivedString msg st = Returned st [].
Proof.
  intros Habs Hnum Hq. unfold onReceivedString.
  apply scanIds_absent in Habs. rewrite Habs, Nat.eqb_refl, Hnum.
  unfold jsge, jsle.
  destruct Hq as [Hq | Hq]; apply Qle_bool_iff in Hq; rewrite Hq;
    rewrite ?orb_true_r; reflexivity.
Qed.

(** Anything else, a number strictly between 0 and 100 or no number,
    is registered with the fallback handler. *)
Lemma onReceivedString_unknown_registered msg st :
  substr msg 0 (Some 2) ∉ ETradioIds st ->
  toNumber (substr msg 0 (Some 2)) = NaN \/
  (exists q, toNumber (substr msg 0 (Some 2)) = Num q /\ (0 < q < 100)%Q) ->
  let st' := state_of (onReceivedString msg st) in
  ETradioIds st' = ETradioIds st ++ [normalizeId (substr msg 0 (Some 2))] /\
  ETradioHandlers st' = ETradioHandlers st ++ [ETradioHandler st].
Proof.
  intros Habs Hnum. unfold onReceivedString.
  apply scanIds_absent in Habs. rewrite Habs, Nat.eqb_refl.
  assert (Hpass : jsle (toNumber (substr msg 0 (Some 2))) (Num 0)
                  || jsge (toNumber (substr msg 0 (Some 2))) (Num 100) = false).
  { destruct Hnum as [-> | (q & -> & Hlo & Hhi)]; [reflexivity |].
    unfold jsge, jsle. apply orb_false_iff.
    split; apply not_true_is_false; rewrite Qle_bool_iff; intros Hle.
    - apply (Qlt_not_le _ _ Hlo Hle).
    - apply (Qlt_not_le _ _ Hhi Hle). }
  rewrite Hpass. cbv zeta.
  destruct (deliver_keeps (length (ETradioIds st))
              (if bool_decide (substr msg (len msg - 1) None = str "~")
               then substr msg 2 (Some (len msg - 3))
               else substr msg 2 (Some (len msg - 2)))
              (bool_decide (substr msg (len msg - 1) None = str "~"))
              (fst (registerMessageHandler (substr msg 0 (Some 2))
                      (ETradioHandler st) st))) as [-> ->].
  split; reflexivity.
Qed.

(** With every registered handler and the fallback handler set, the
    receive handler returns. *)
Lemma onReceivedString_returns msg st :
  registry_ok st ->
  Forall is_Some (ETradioHandlers st) ->
  is_Some (ETradioHandler st) ->
  threw (onReceivedString msg st) = false.
Proof.
  intros Hok Hall Hfb.
  assert (Hdel : forall ix chunk msgend st1,
             (ix < length (ETradioHandlers st1))%nat ->
             Forall is_Some (ETradioHandlers st1) ->
             threw (deliver ix chunk msgend st1) = false).
  { intros ix chunk msgend st1 Hix Hs. unfold deliver.
    destruct msgend; [| reflexivity]. simpl. unfold array_get.
    destruct (lookup_lt_is_Some_2 _ _ Hix) as [o Ho]. rewrite Ho.
    rewrite Forall_forall in Hs.
    destruct (Hs o (list_elem_of_lookup_2 _ _ _ Ho)) as [h ->]. reflexivity. }
  unfold onReceivedString.
  pose proof (scanIds_le (substr msg 0 (Some 2)) (ETradioIds st)) as Hle.
  destruct Hok as [_ Hh _ _].
  destruct (Nat.eqb_spec (scanIds (substr msg 0 (Some 2)) (ETradioIds st))
              (length (ETradioIds st))) as [Heq | Hne].
  - destruct (jsle _ _ || jsge _ _); [reflexivity |].
    apply Hdel; simpl.
    + rewrite length_app. simpl. lia.
    + apply Forall_app. split; [exact Hall | repeat constructor; exact Hfb].
  - apply Hdel; [lia | exact Hall].
Qed.

(** Claim C8. [registerMessageHandler] makes the id exactly two
    characters long (the empty id becomes "ET", one character gets the
    filler ['#'], a longer id keeps its first two), appends an entry with
    that id, an empty text and the handler, and returns the index of the
    new entry; so every id in the registry has two characters. *)
Theorem registerMessageHandler_normalizes id hnd st :
  reachable st ->
  let st' := fst (registerMessageHandler id hnd st) in
  let ix := length (ETradioIds st) in
  length (normalizeId id) = 2%nat /\
  normalizeId id =
    match id with
    | [] => str "ET"
    | [c] => [c; "#"%char]
    | c1 :: c2 :: _ => [c1; c2]
    end /\
  ETradioIds st' = ETradioIds st ++ [normalizeId id] /\
  ETradioMsgs st' = ETradioMsgs st ++ [Some []] /\
  ETradioHandlers st' = ETradioHandlers st ++ [hnd] /\
  snd (registerMessageHandler id hnd st) = Z.of_nat ix /\
  ETradioIds st' !! ix = Some (normalizeId id) /\
  ETradioMsgs st' !! ix = Some (Some []) /\
  ETradioHandlers st' !! ix = Some hnd /\
  Forall (fun id' => length id' = 2%nat) (ETradioIds st').
Proof.
  intros Hreach st' ix.
  pose proof (reachable_ok st Hreach) as [Hm Hh Ht Hi].
  split; [apply normalizeId_length |].
  split; [apply normalizeId_cases |].
  do 3 (split; [reflexivity |]).
  split; [simpl; rewrite length_app, Hh; simpl; lia |].
  split; [apply list_lookup_middle; reflexivity |].
  split; [apply list_lookup_middle; symmetry; exact Hm |].
  split; [apply list_lookup_middle; symmetry; exact Hh |].
  apply (ok_ids _ (registerMessageHandler_ok id hnd st (reachable_ok st Hreach))).
Qed.

Lemma registerMessageHandler_normalizes_witness :
  reachable emptyRegistry /\
  ETradioIds (fst (registerMessageHandler (str "7") (Some 3%nat) emptyRegistry))
  = [str "7#"] /\
  snd (registerMessageHandler (str "7") (Some 3%nat) emptyRegistry) = 0.
Proof.
  split; [constructor |].
  pose proof (registerMessageHandler_normalizes (str "7") (Some 3%nat)
                emptyRegistry reachable_start) as H.
  cbv zeta in H.
  destruct H as (_ & _ & Hids & _ & _ & Hret & _).
  split; [exact Hids | exact Hret].
Defined.

(** Claim C5 fails: with no handler given to [onRadioMessage], the
    first complete message under a new numeric id registers [undefined] as
    its handler and the call of it throws. *)
Theorem onReceivedString_throws_without_fallback :
  reachable emptyRegistry /\
  onReceivedString (str "01~") emptyRegistry
  = Threw (Registry [str "01"] [Some []] [None] None) [].
Proof. split; [constructor | vm_compute; reflexivity]. Qed.

(** Claim C6 fails: an unregistered id that is no number at all passes
    the test [id <= 0 || id >= 100], both comparisons with [NaN] being false,
    and is registered with the fallback handler. *)
Theorem onReceivedString_registers_non_numeric_id :
  let st := onRadioMessage 7%nat emptyRegistry in
  toNumber (str "ab") = NaN /\
  (str "ab" ∉ ETradioIds st) /\
  onReceivedString (str "ab~") st
  = Returned (Registry [str "ab"] [Some []] [Some 7%nat] (Some 7%nat))
      [(7%nat, [])].
Proof.
  split; [reflexivity |].
  split; [apply not_elem_of_nil | vm_compute; reflexivity].
Qed.

End Receiving.

(** ** Choosing the group *)

Section Group.

Import GeneralTs.
Implicit Types (st : group_state) (gaps : list nat).

Lemma run_app ins1 ins2 st : run (ins1 ++ ins2) st = run ins2 (run ins1 st).
Proof. apply foldl_app. Qed.

(** The next group after [g]. *)
Lemma cycle_0 (g : Z) : 1 <= g <= 9 -> cycle g 0 = g.
Proof. unfold cycle. intros. div_lia. Qed.

Lemma cycle_S (g : Z) (n : nat) :
  1 <= g <= 9 ->
  cycle g (S n) = cycle (if g + 1 >? 9 then 1 else g + 1) n.
Proof.
  unfold cycle. intros Hg.
  destruct (Z.gtb_spec (g + 1) 9); div_lia.
Qed.

Lemma cycle_range (g : Z) (n : nat) : 1 <= cycle g n <= 9.
Proof. unfold cycle. div_lia. Qed.

Lemma run_cons (i : input) ins st : run (i :: ins) st = run ins (step st i).
Proof. reflexivity. Qed.

Lemma step_ms_waiting st :
  eventRunning st = true ->
  millis st + 1 < ETgroupTimer st ->
  step st Ms
  = GroupState (ETgroup st) (ETgroupTimer st) (ETgroupSet st)
      (millis st + 1) true (effects st).
Proof.
  intros Hrun Hlt. unfold step. cbn [eventRunning]. rewrite Hrun.
  unfold onEventPoll. cbn [ETgroupTimer millis].
  destruct (Z.gtb_spec (ETgroupTimer st) (millis st + 1)); [reflexivity | lia].
Qed.

Lemma step_ms_idle st :
  eventRunning st = false ->
  step st Ms
  = GroupState (ETgroup st) (ETgroupTimer st) (ETgroupSet st)
      (millis st + 1) false (effects st).
Proof.
  intros Hrun. unfold step. cbn [eventRunning]. rewrite Hrun. reflexivity.
Qed.

(** While the timer lies ahead, the running event handler only pauses. *)
Lemma run_ms_waiting (n : nat) st :
  eventRunning st = true ->
  millis st + Z.of_nat n < ETgroupTimer st ->
  run (replicate n Ms) st
  = GroupState (ETgroup st) (ETgroupTimer st) (ETgroupSet st)
      (millis st + Z.of_nat n) true (effects st).
Proof.
  revert st. induction n as [| n IH]; intros st Hrun Hlt.
  - destruct st; simpl in *. subst. f_equal. lia.
  - cbn [replicate]. rewrite run_cons, step_ms_waiting by (try assumption; lia).
    rewrite IH by (simpl; try reflexivity; lia).
    simpl. f_equal. lia.
Qed.

(** With no handler running, time just passes. *)
Lemma run_ms_idle (n : nat) st :
  eventRunning st = false ->
  run (replicate n Ms) st
  = GroupState (ETgroup st) (ETgroupTimer st) (ETgroupSet st)
      (millis st + Z.of_nat n) false (effects st).
Proof.
  revert st. induction n as [| n IH]; intros st Hrun.
  - destruct st; simpl in *. subst. f_equal. lia.
  - cbn [replicate]. rewrite run_cons, step_ms_idle by assumption.
    rewrite IH by reflexivity. simpl. f_equal. lia.
Qed.

(** The millisecond at which the timer is reached: the handler shows the
    group and clears timer and flag. *)
Lemma step_ms_commit st :
  eventRunning st = true ->
  ETgroupTimer st <= millis st + 1 ->
  step st Ms
  = GroupState (ETgroup st) 0 false (millis st + 1) false
      (effects st ++ [DisplayGroup (ETgroup st)]).
Proof.
  intros Hrun Hle. unfold step. cbn [eventRunning]. rewrite Hrun.
  unfold onEventPoll. cbn [ETgroupTimer millis ETgroup effects].
  destruct (Z.gtb_spec (ETgroupTimer st) (millis st + 1)); [lia | reflexivity].
Qed.

Lemma commits_app st (es : list group_effect) :
  omap (fun e => match e with DisplayGroup n => Some n | _ => None end)
    (effects st ++ es)
  = commits st
    ++ omap (fun e => match e with DisplayGroup n => Some n | _ => None end) es.
Proof. unfold commits. apply omap_app. Qed.

(** The further presses of a burst: each one advances the group and
    moves the timer, none lets the handler finish. *)
Lemma run_further_presses gaps st :
  eventRunning st = true ->
  ETgroupSet st = true ->
  ETgroupTimer st = millis st + 1000 ->
  0 <= millis st ->
  1 <= ETgroup st <= 9 ->
  Forall (fun g => (g < 1000)%nat) gaps ->
  let st' := run (concat (map (fun g => replicate g Ms ++ [Logo]) gaps)) st in
  eventRunning st' = true /\
  ETgroupSet st' = true /\
  ETgroupTimer st' = millis st' + 1000 /\
  0 <= millis st' /\
  ETgroup st' = cycle (ETgroup st) (length gaps) /\
  commits st' = commits st.
Proof.
  revert st. induction gaps as [| g gaps IH];
    intros st Hrun Hset Htimer Hms Hgroup Hgaps.
  - simpl. rewrite cycle_0 by exact Hgroup.
    repeat (split; [first [assumption | reflexivity] |]). reflexivity.
  - apply Forall_cons in Hgaps as [Hg Hgaps].
    cbn [map concat length]. cbv zeta. rewrite <- app_assoc, !run_app.
    rewrite run_ms_waiting by (try assumption; lia).
    rewrite run_cons. cbn [run foldl step].
    unfold onLogoEvent.
    cbn [ETgroupSet ETgroupTimer ETgroup millis effects eventRunning].
    rewrite Hset.
    destruct (Z.eqb_spec (ETgroupTimer st) 0) as [? | _]; [lia |].
    rewrite cycle_S by exact Hgroup.
    set (g' := if ETgroup st + 1 >? 9 then 1 else ETgroup st + 1).
    assert (Hg' : 1 <= g' <= 9)
      by (subst g'; destruct (Z.gtb_spec (ETgroup st + 1) 9); lia).
    destruct (IH (GroupState g' (millis st + Z.of_nat g + 1000) true
                   (millis st + Z.of_nat g) true
                   ((effects st ++ [RadioSetGroup g']) ++ [ShowNumber g'])))
      as (H1 & H2 & H3 & H4 & H5 & H6); simpl; try reflexivity; try lia;
      try assumption.
    repeat (split; [assumption |]).
    rewrite H6. unfold commits at 1. simpl.
    rewrite <- app_assoc, commits_app. simpl. apply app_nil_r.
Qed.

(** Claim C2, as the code has it. From a state with nothing pending, a
    burst of presses less than 1000 ms apart followed by 1000 ms or more
    without a press shows the group exactly once. The first press of the
    burst leaves the group as it is, each further press moves it one step
    round 1..9, and afterwards nothing is pending again: so the first press
    of every burst, not only of the first one, leaves the group alone. *)
Theorem logo_burst_commits_once st gaps (quiet : nat) :
  idle st ->
  1 <= ETgroup st <= 9 ->
  0 <= millis st ->
  Forall (fun g => (g < 1000)%nat) gaps ->
  (1000 <= quiet)%nat ->
  let st' := run (burst gaps ++ replicate quiet Ms) st in
  ETgroup (onLogoEvent st) = ETgroup st /\
  commits st' = commits st ++ [cycle (ETgroup st) (length gaps)] /\
  ETgroup st' = cycle (ETgroup st) (length gaps) /\
  idle st' /\ 1 <= ETgroup st' <= 9 /\ 0 <= millis st'.
Proof.
  intros (Htimer & Hset & Hrun) Hgroup Hms Hgaps Hquiet st'.
  assert (Hfirst : onLogoEvent st
                   = GroupState (ETgroup st) (millis st + 1000) true (millis st)
                       true ((effects st ++ [ShowNumber (ETgroup st)])
                             ++ [RaiseEvent])).
  { unfold onLogoEvent. rewrite Hset, Htimer. reflexivity. }
  split; [rewrite Hfirst; reflexivity |].
  subst st'. unfold burst.
  rewrite <- app_comm_cons, run_cons, run_app. cbn [step].
  rewrite Hfirst.
  set (st1 := GroupState _ _ _ _ _ _).
  destruct (run_further_presses gaps st1)
    as (H1 & H2 & H3 & H4 & H5 & H6);
    try reflexivity; try assumption.
  set (st2 := run _ st1) in *.
  assert (H7 : commits st1 = commits st).
  { unfold commits. subst st1. simpl.
    rewrite <- app_assoc, commits_app. simpl. apply app_nil_r. }
  rewrite H7 in H6. change (ETgroup st1) with (ETgroup st) in H5.
  clearbody st2. clear st1 H7.
  pose proof (cycle_range (ETgroup st) (length gaps)) as Hrange.
  replace quiet with (999 + (1 + (quiet - 1000)))%nat by lia.
  rewrite !replicate_add, !run_app.
  rewrite (run_ms_waiting 999 st2) by (try assumption; lia).
  cbn [replicate]. rewrite run_cons.
  rewrite step_ms_commit by (simpl; try reflexivity; lia).
  cbn [run foldl].
  fold (run (replicate (quiet - 1000) Ms)).
  rewrite run_ms_idle by reflexivity.
  unfold idle, commits.
  cbn [ETgroup ETgroupTimer ETgroupSet millis effects eventRunning].
  rewrite commits_app, H6, H5. simpl.
  repeat (split; [first [reflexivity | lia] |]). lia.
Qed.

Lemma logo_burst_commits_once_witness :
  let st' := run (burst [300; 999; 0]%nat ++ replicate 1000 Ms) (startup 0) in
  idle (startup 0) /\
  commits st' = commits (startup 0) ++ [4] /\ ETgroup st' = 4.
Proof.
  cbv zeta. split; [repeat split |].
  destruct (logo_burst_commits_once (startup 0) [300; 999; 0]%nat 1000)
    as (_ & Hc & Hg & _).
  - repeat split.
  - simpl. lia.
  - simpl. lia.
  - repeat constructor; lia.
  - lia.
  - split; [exact Hc | exact Hg].
Defined.

(** Claim C2 as written fails at the second burst: its first press is
    not the first press since startup, yet it leaves the group at 1. *)
Lemma logo_second_burst_keeps_group :
  let first := Logo :: replicate 1000 Ms in
  let st1 := run first (startup 0) in
  let st2 := run (Logo :: replicate 1000 Ms) st1 in
  ETgroup st1 = 1 /\ commits st1 = [1; 1] /\
  ETgroup (onLogoEvent st1) = 1 /\
  ETgroup st2 = 1 /\ ETgroup st2 <> cycle 1 1 /\ commits st2 = [1; 1; 1].
Proof. vm_compute. repeat split; congruence. Qed.

End Group.

(** ** Waiting *)

Section AutoResetWait.

Import GeneralTs.

Variable presses : Z -> option Button.

(** One test of the loop condition and what follows it. *)
Lemma waitLoop_unfold (tm : Z) (st : wait_state) (n : nat) :
  waitLoop presses tm st n =
  if clock st <? tm then
    if ETwaitAbort st then (WaitState (clock st) false, n)
    else waitLoop presses tm (pause1 presses st) (S n)
  else (st, n).
Proof.
  rewrite waitLoop_equation_1.
  destruct (Z_lt_dec (clock st) tm), (Z.ltb_spec (clock st) tm);
    try lia; reflexivity.
Qed.

(** With the flag unset and button B untouched, the loop pauses on. *)
Lemma waitLoop_undisturbed (k : nat) (tm t0 : Z) (n : nat) :
  t0 + Z.of_nat k <= tm ->
  (forall t, t0 <= t < t0 + Z.of_nat k -> presses t <> Some ButtonB) ->
  waitLoop presses tm (WaitState t0 false) n
  = waitLoop presses tm (WaitState (t0 + Z.of_nat k) false) (n + k).
Proof.
  revert t0 n. induction k as [| k IH]; intros t0 n Hle Hno.
  - rewrite Z.add_0_r, Nat.add_0_r. reflexivity.
  - rewrite waitLoop_unfold. cbn [clock ETwaitAbort].
    destruct (Z.ltb_spec t0 tm) as [_ | ?]; [| lia].
    assert (Hp : pause1 presses (WaitState t0 false) = WaitState (t0 + 1) false).
    { unfold pause1. cbn [clock].
      pose proof (Hno t0 ltac:(lia)) as Hb.
      destruct (presses t0) as [[] |]; try reflexivity. congruence. }
    rewrite Hp, (IH (t0 + 1) (S n)).
    + f_equal; [f_equal |]; lia.
    + lia.
    + intros t Ht. apply Hno. lia.
Qed.

(** A wait that finds the flag set returns at once and unsets it. *)
Lemma wait_aborts_and_resets (sec : Z) (st : wait_state) :
  0 < sec -> ETwaitAbort st = true ->
  wait presses sec st = (WaitState (clock st) false, 0%nat).
Proof.
  intros Hsec Hflag. unfold wait. rewrite waitLoop_unfold, Hflag.
  destruct (Z.ltb_spec (clock st) (clock st + sec * 1000)); [reflexivity | lia].
Qed.

(** A wait nobody stops lasts its full time. *)
Lemma wait_undisturbed (sec t0 : Z) :
  0 <= sec ->
  (forall t, t0 <= t < t0 + sec * 1000 -> presses t <> Some ButtonB) ->
  wait presses sec (WaitState t0 false)
  = (WaitState (t0 + sec * 1000) false, Z.to_nat (sec * 1000)).
Proof.
  intros Hsec Hno. unfold wait. cbn [clock].
  rewrite (waitLoop_undisturbed (Z.to_nat (sec * 1000)))
    by (rewrite ?Z2Nat.id by lia; first [lia | exact Hno]).
  rewrite Z2Nat.id by lia. rewrite waitLoop_unfold. cbn [clock].
  destruct (Z.ltb_spec (t0 + sec * 1000) (t0 + sec * 1000)); [lia |].
  reflexivity.
Qed.

(** Button B during the pause that starts [k] ms into the wait: the
    next test of the flag ends the wait. *)
Lemma wait_stopped (sec t0 : Z) (k : nat) :
  Z.of_nat k + 1 < sec * 1000 ->
  (forall t, t0 <= t < t0 + Z.of_nat k -> presses t <> Some ButtonB) ->
  presses (t0 + Z.of_nat k) = Some ButtonB ->
  wait presses sec (WaitState t0 false)
  = (WaitState (t0 + Z.of_nat k + 1) false, S k).
Proof.
  intros Hk Hno Hb. unfold wait. cbn [clock].
  rewrite (waitLoop_undisturbed k) by (first [lia | exact Hno]).
  rewrite waitLoop_unfold. cbn [clock ETwaitAbort].
  destruct (Z.ltb_spec (t0 + Z.of_nat k) (t0 + sec * 1000)); [| lia].
  unfold pause1. cbn [clock]. rewrite Hb. cbn [onButtonPressed clock ETwaitAbort].
  rewrite waitLoop_unfold. cbn [clock ETwaitAbort].
  destruct (Z.ltb_spec (t0 + Z.of_nat k + 1) (t0 + sec * 1000)); [| lia].
  reflexivity.
Qed.

End AutoResetWait.

Section StickyWait.

Import MainTs.

Variable presses : Z -> option Button.

Lemma sticky_waitLoop_unfold (tm : Z) (st : wait_state) (n : nat) :
  pollLoop presses tm st n =
  if clock st <? tm then
    if WAITABORT st then (st, n)
    else pollLoop presses tm (pause1 presses st) (S n)
  else (st, n).
Proof.
  rewrite pollLoop_equation_1.
  destruct (Z_lt_dec (clock st) tm), (Z.ltb_spec (clock st) tm);
    try lia; reflexivity.
Qed.

Lemma pause1_undisturbed (t0 : Z) :
  presses t0 <> Some ButtonB ->
  pause1 presses (WaitState t0 false) = WaitState (t0 + 1) false.
Proof.
  intros Hb. unfold pause1. cbn [clock].
  destruct (presses t0) as [[] |]; try reflexivity. congruence.
Qed.

Lemma sticky_waitLoop_undisturbed (k : nat) (tm t0 : Z) (n : nat) :
  t0 + Z.of_nat k <= tm ->
  (forall t, t0 <= t < t0 + Z.of_nat k -> presses t <> Some ButtonB) ->
  pollLoop presses tm (WaitState t0 false) n
  = pollLoop presses tm (WaitState (t0 + Z.of_nat k) false) (n + k).
Proof.
  revert t0 n. induction k as [| k IH]; intros t0 n Hle Hno.
  - rewrite Z.add_0_r, Nat.add_0_r. reflexivity.
  - rewrite sticky_waitLoop_unfold. cbn [clock WAITABORT].
    destruct (Z.ltb_spec t0 tm) as [_ | ?]; [| lia].
    rewrite pause1_undisturbed by (apply Hno; lia).
    rewrite (IH (t0 + 1) (S n)).
    + f_equal; [f_equal |]; lia.
    + lia.
    + intros t Ht. apply Hno. lia.
Qed.

(** A wait that finds the flag set returns at once and leaves it set. *)
Lemma wait_aborts_and_keeps (sec : Z) (st : wait_state) :
  WAITABORT st = true -> wait presses sec st = (st, 0%nat).
Proof.
  intros Hflag. unfold wait. rewrite sticky_waitLoop_unfold, Hflag.
  destruct (clock st <? clock st + sec * 1000); reflexivity.
Qed.

Lemma sticky_wait_stopped (sec t0 : Z) (k : nat) :
  Z.of_nat k + 1 < sec * 1000 ->
  (forall t, t0 <= t < t0 + Z.of_nat k -> presses t <> Some ButtonB) ->
  presses (t0 + Z.of_nat k) = Some ButtonB ->
  wait presses sec (WaitState t0 false)
  = (WaitState (t0 + Z.of_nat k + 1) true, S k).
Proof.
  intros Hk Hno Hb. unfold wait. cbn [clock].
  rewrite (sticky_waitLoop_undisturbed k) by (first [lia | exact Hno]).
  rewrite sticky_waitLoop_unfold. cbn [clock WAITABORT].
  destruct (Z.ltb_spec (t0 + Z.of_nat k) (t0 + sec * 1000)); [| lia].
  unfold pause1. cbn [clock]. rewrite Hb. cbn [onButtonPressed clock WAITABORT].
  rewrite sticky_waitLoop_unfold. cbn [clock WAITABORT].
  destruct (Z.ltb_spec (t0 + Z.of_nat k + 1) (t0 + sec * 1000)); [| lia].
  reflexivity.
Qed.

(** [waitUntil(true)] returns at once. *)
Lemma waitUntil_true (fuel : nat) (st : wait_state) :
  waitUntil presses fuel true st = Some st.
Proof. destruct fuel; reflexivity. Qed.

(** [waitUntil(false)] pauses for as long as button B is left alone. *)
Lemma waitUntil_false_undisturbed (fuel : nat) (t0 : Z) :
  (forall t, t0 <= t < t0 + Z.of_nat fuel -> presses t <> Some ButtonB) ->
  waitUntil presses fuel false (WaitState t0 false) = None.
Proof.
  revert t0. induction fuel as [| fuel IH]; intros t0 Hno; [reflexivity |].
  cbn [waitUntil negb WAITABORT].
  rewrite pause1_undisturbed by (apply Hno; lia).
  apply IH. intros t Ht. apply Hno. lia.
Qed.

(** [waitUntil(false)] ends one pause after button B. *)
Lemma waitUntil_false_stopped (fuel k : nat) (t0 : Z) :
  (k < fuel)%nat ->
  (forall t, t0 <= t < t0 + Z.of_nat k -> presses t <> Some ButtonB) ->
  presses (t0 + Z.of_nat k) = Some ButtonB ->
  waitUntil presses fuel false (WaitState t0 false)
  = Some (WaitState (t0 + Z.of_nat k + 1) true).
Proof.
  revert fuel t0. induction k as [| k IH]; intros fuel t0 Hlt Hno Hb;
    (destruct fuel as [| fuel]; [lia |]); cbn [waitUntil negb WAITABORT].
  - unfold pause1. cbn [clock]. rewrite Z.add_0_r in Hb. rewrite Hb.
    destruct fuel; cbn [waitUntil negb onButtonPressed WAITABORT clock];
      do 2 f_equal; lia.
  - rewrite pause1_undisturbed by (apply Hno; lia).
    rewrite (IH fuel (t0 + 1)).
    + do 2 f_equal. lia.
    + lia.
    + intros t Ht. apply Hno. lia.
    + rewrite <- Hb. f_equal. lia.
Qed.

End StickyWait.

Section Claims_on_waiting.

(** Claim C9. The two versions of [wait] treat the abort flag
    differently. In main.ts a wait that finds the flag set returns and
    leaves it set, so the next wait returns at once as well, until
    button A unsets the flag. In general.ts a wait that finds the flag set
    unsets it as it returns, so the next wait, with button B left alone, lasts
    its full time. *)
Theorem abort_flag_sticky_and_auto_reset
    (pressesM : Z -> option MainTs.Button)
    (pressesG : Z -> option GeneralTs.Button) (sec sec' t0 : Z) :
  0 < sec -> 0 <= sec' ->
  (forall t, t0 <= t < t0 + sec' * 1000 ->
             pressesG t <> Some GeneralTs.ButtonB) ->
  let stM := MainTs.WaitState t0 true in
  let stG := GeneralTs.WaitState t0 true in
  MainTs.wait pressesM sec stM = (stM, 0%nat) /\
  MainTs.wait pressesM sec' (fst (MainTs.wait pressesM sec stM))
    = (stM, 0%nat) /\
  MainTs.WAITABORT (MainTs.onButtonPressed MainTs.ButtonA stM) = false /\
  GeneralTs.wait pressesG sec stG = (GeneralTs.WaitState t0 false, 0%nat) /\
  GeneralTs.wait pressesG sec' (fst (GeneralTs.wait pressesG sec stG))
    = (GeneralTs.WaitState (t0 + sec' * 1000) false, Z.to_nat (sec' * 1000)).
Proof.
  intros Hsec Hsec' Hno stM stG.
  rewrite !wait_aborts_and_keeps by reflexivity.
  rewrite wait_aborts_and_resets by (try reflexivity; exact Hsec).
  cbn [fst GeneralTs.clock].
  rewrite wait_undisturbed by assumption.
  repeat split.
Qed.

Lemma abort_flag_sticky_and_auto_reset_witness :
  MainTs.wait (fun _ => None) 5 (MainTs.WaitState 20 true)
    = (MainTs.WaitState 20 true, 0%nat) /\
  GeneralTs.wait (fun _ => None) 5 (GeneralTs.WaitState 20 true)
    = (GeneralTs.WaitState 20 false, 0%nat) /\
  GeneralTs.wait (fun _ => None) 2
      (fst (GeneralTs.wait (fun _ => None) 5 (GeneralTs.WaitState 20 true)))
    = (GeneralTs.WaitState 2020 false, 2000%nat).
Proof.
  destruct (abort_flag_sticky_and_auto_reset
              (fun _ => None) (fun _ => None) 5 2 20)
    as (H1 & _ & _ & H4 & H5).
  - lia.
  - lia.
  - intros t _. discriminate.
  - split; [exact H1 |]. split; [exact H4 | exact H5].
Defined.

(** Claim C10. Button B pressed during a [wait(5)], in the pause that
    starts [k] ms into it, sets the flag; the test of the flag that follows
    that pause ends the wait, after [k + 1] pauses instead of 5000. This
    holds for the [wait] of general.ts and for that of main.ts. *)
Theorem wait_5_returns_one_pause_after_stop
    (pressesM : Z -> option MainTs.Button)
    (pressesG : Z -> option GeneralTs.Button) (t0 : Z) (k : nat) :
  (k + 1 < 5000)%nat ->
  (forall t, t0 <= t < t0 + Z.of_nat k ->
             pressesG t <> Some GeneralTs.ButtonB /\
             pressesM t <> Some MainTs.ButtonB) ->
  pressesG (t0 + Z.of_nat k) = Some GeneralTs.ButtonB ->
  pressesM (t0 + Z.of_nat k) = Some MainTs.ButtonB ->
  GeneralTs.wait pressesG 5 (GeneralTs.WaitState t0 false)
    = (GeneralTs.WaitState (t0 + Z.of_nat k + 1) false, S k) /\
  MainTs.wait pressesM 5 (MainTs.WaitState t0 false)
    = (MainTs.WaitState (t0 + Z.of_nat k + 1) true, S k) /\
  t0 + Z.of_nat k + 1 < t0 + 5 * 1000.
Proof.
  intros Hk Hno HbG HbM.
  split; [| split; [| lia]].
  - apply wait_stopped; [lia | | exact HbG].
    intros t Ht. apply Hno, Ht.
  - apply sticky_wait_stopped; [lia | | exact HbM].
    intros t Ht. apply Hno, Ht.
Qed.

Lemma wait_5_returns_one_pause_after_stop_witness :
  let pressesM := fun t => if t =? 1207 then Some MainTs.ButtonB else None in
  let pressesG := fun t => if t =? 1207 then Some GeneralTs.ButtonB else None in
  GeneralTs.wait pressesG 5 (GeneralTs.WaitState 1000 false)
    = (GeneralTs.WaitState 1208 false, 208%nat) /\
  MainTs.wait pressesM 5 (MainTs.WaitState 1000 false)
    = (MainTs.WaitState 1208 true, 208%nat).
Proof.
  intros pressesM pressesG.
  destruct (wait_5_returns_one_pause_after_stop pressesM pressesG 1000 207)
    as (HG & HM & _).
  - lia.
  - intros t Ht. subst pressesM pressesG. cbv beta.
    destruct (Z.eqb_spec t 1207); [lia |]. split; discriminate.
  - reflexivity.
  - reflexivity.
  - split; [exact HG | exact HM].
Defined.

(** Claim C4 fails: [waitUntil] receives the value its condition has at
    the call and never looks at the condition again. Called when the
    condition is false, it is still in its loop after any number of pauses,
    although the condition holds from 3 ms on. *)
Theorem waitUntil_misses_later_truth :
  let condition := fun t : Z => 3 <=? t in
  let st := MainTs.WaitState 0 false in
  condition (MainTs.clock st) = false /\
  (forall t, 3 <= t -> condition t = true) /\
  forall fuel : nat,
    MainTs.waitUntil (fun _ => None) fuel (condition (MainTs.clock st)) st
    = None.
Proof.
  cbv zeta. split; [reflexivity |].
  split; [intros t Ht; apply Z.leb_le, Ht |].
  intros fuel. apply waitUntil_false_undisturbed.
  intros t _. discriminate.
Qed.

End Claims_on_waiting.

(** * Further properties *)

(** ** Ids and units *)

Section MoreSending.

Import GeneralTs.
Implicit Types idstr msg u : jsstring.

Lemma idstrOf_toNumber (id : Z) :
  1 <= id <= 99 -> toNumber (idstrOf id) = Num (inject_Z id).
Proof.
  intros Hid.
  assert (Hall : forallb (fun n =>
                    match toNumber (idstrOf (Z.of_nat n)) with
                    | Num (Qmake a b) => (a =? Z.of_nat n) && (Pos.eqb b 1)
                    | NaN => false
                    end) (seq 1 99) = true) by (vm_compute; reflexivity).
  rewrite forallb_forall in Hall.
  specialize (Hall (Z.to_nat id)). rewrite Z2Nat.id in Hall by lia.
  specialize (Hall ltac:(apply in_seq; lia)).
  destruct (toNumber (idstrOf id)) as [| [a b]]; [discriminate |].
  apply andb_true_iff in Hall as [Ha Hb].
  apply Z.eqb_eq in Ha. apply Pos.eqb_eq in Hb. subst. reflexivity.
Qed.

(** The id string of [sendRadioMessage] can be read back: for an id from 1
    to 99 it has two characters, unary plus gives the id again, and
    different ids have different strings. *)
Theorem idstrOf_read_back (id id' : Z) :
  1 <= id <= 99 -> 1 <= id' <= 99 ->
  length (idstrOf id) = 2%nat /\
  toNumber (idstrOf id) = Num (inject_Z id) /\
  (idstrOf id = idstrOf id' -> id = id').
Proof.
  intros Hid Hid'. split; [apply idstrOf_length, Hid |].
  split; [apply idstrOf_toNumber, Hid |].
  intros Heq. pose proof (idstrOf_toNumber id Hid) as H1.
  pose proof (idstrOf_toNumber id' Hid') as H2.
  rewrite Heq, H2 in H1. injection H1 as H1. symmetry. exact H1.
Qed.

Lemma idstrOf_read_back_witness :
  length (idstrOf 7) = 2%nat /\
  toNumber (idstrOf 7) = Num (inject_Z 7) /\
  (idstrOf 7 = idstrOf 70 -> 7 = 70).
Proof. apply (idstrOf_read_back 7 70); lia. Defined.

(** [sendRadioMessage] sends nothing exactly when the id lies outside
    1..99; otherwise it sends at least one unit, also for the empty
    message. *)
Theorem sendRadioMessage_silent_iff_invalid msg (id : Z) :
  units (sendRadioMessage msg id) = [] <-> (id <= 0 \/ 100 <= id).
Proof.
  split.
  - intros Hnil.
    destruct (decide (1 <= id <= 99)) as [Hid | Hid]; [| lia].
    rewrite sendRadioMessage_valid, units_sendLoop in Hnil by exact Hid.
    discriminate.
  - intros Hid. rewrite sendRadioMessage_invalid by exact Hid. reflexivity.
Qed.

Lemma sendLoop_payload idstr msg :
  length idstr = 2%nat ->
  Forall (fun u => take 2 u = idstr) (units (sendLoop idstr msg)) /\
  concat (map (drop 2) (units (sendLoop idstr msg)))
  = msg ++ (if ((length msg mod 17 =? 0) && (0 <? length msg))%nat
            then [] else [tilde]).
Proof.
  intros Hid.
  assert (Hhead : forall m, take 2 (nextUnit idstr m) = idstr).
  { intros m. rewrite nextUnit_eq. apply take_app_length'. symmetry. exact Hid. }
  assert (Htail : forall m, drop 2 (nextUnit idstr m)
                            = take 17 m
                              ++ (if (length m <? 17)%nat then [tilde] else [])).
  { intros m. rewrite nextUnit_eq. apply drop_app_length'. symmetry. exact Hid. }
  induction msg as [msg Hle | msg Hlt IH] using chunk_ind;
    rewrite units_sendLoop.
  - destruct (Nat.ltb_spec 17 (length msg)) as [? | _]; [lia |].
    split; [repeat constructor; apply Hhead |].
    cbn [map concat]. rewrite Htail, app_nil_r, take_ge by lia.
    destruct (Nat.ltb_spec (length msg) 17) as [Hlt | Hge],
             (Nat.eqb_spec (length msg mod 17) 0),
             (Nat.ltb_spec 0 (length msg)); cbn [andb];
      first [reflexivity | exfalso; div_lia].
  - destruct (Nat.ltb_spec 17 (length msg)) as [_ | ?]; [| lia].
    destruct IH as [IHhead IHtail].
    split; [constructor; [apply Hhead | exact IHhead] |].
    cbn [map concat]. rewrite Htail, IHtail, length_drop.
    destruct (Nat.ltb_spec (length msg) 17) as [? | _]; [lia |].
    rewrite app_nil_r, app_assoc, take_drop.
    destruct (Nat.eqb_spec ((length msg - 17) mod 17) 0),
             (Nat.eqb_spec (length msg mod 17) 0),
             (Nat.ltb_spec 0 (length msg - 17)),
             (Nat.ltb_spec 0 (length msg)); cbn [andb];
      first [reflexivity | exfalso; div_lia].
Qed.

(** What the units carry: each starts with the id string, and what follows
    the id strings, put together, is the message, closed by ['~'] unless
    the length of the message is a positive multiple of 17. *)
Theorem sendRadioMessage_payload msg (id : Z) :
  1 <= id <= 99 ->
  Forall (fun u => take 2 u = idstrOf id) (units (sendRadioMessage msg id)) /\
  concat (map (drop 2) (units (sendRadioMessage msg id)))
  = msg ++ (if ((length msg mod 17 =? 0) && (0 <? length msg))%nat
            then [] else [tilde]).
Proof.
  intros Hid. rewrite sendRadioMessage_valid by exact Hid.
  apply sendLoop_payload, idstrOf_length, Hid.
Qed.

Lemma sendRadioMessage_payload_witness :
  Forall (fun u => take 2 u = idstrOf 5)
    (units (sendRadioMessage (str "twenty characters !!") 5)) /\
  concat (map (drop 2) (units (sendRadioMessage (str "twenty characters !!") 5)))
  = str "twenty characters !!~".
Proof. apply (sendRadioMessage_payload (str "twenty characters !!") 5). lia. Defined.

End MoreSending.

(** ** More on receiving *)

Section MoreReceiving.

Import GeneralTs.
Implicit Types (st : registry) (msg idstr chunk text : jsstring).
Implicit Types (hnd : option strhandler) (us vs : list jsstring).





Lemma sendRadioMessage_roundtrip_witness :
  let st := fst (registerMessageHandler (str "42") (Some 3%nat) emptyRegistry) in
  receiveAll (units (sendRadioMessage (str "a message of 24 letters.") 42)) st
  = Returned (withText 0 [] st) [(3%nat, str "a message of 24 letters.")].
Proof.
  refine (sendRadioMessage_roundtrip (str "a message of 24 letters.") 42 0
            3%nat _ _ _ _ _ _ _ _).
  - lia.
  - apply (bool_decide_unpack _). vm_compute. exact I.
  - left. vm_compute. lia.
  - reflexivity.
  - simpl. lia.
  - reflexivity.
  - reflexivity.
Defined.

(** **** A first message under a new id *)


Lemma scanIds_app_found idstr (ids more : list jsstring) :
  idstr ∈ ids -> scanIds idstr (ids ++ more) = scanIds idstr ids.
Proof.
  induction ids as [| x ids IH]; simpl.
  - intros H. apply elem_of_nil in H. contradiction.
  - rewrite elem_of_cons.
    destruct (bool_decide_reflect (idstr = x)); [reflexivity |].
    intros [? | Hin]; [contradiction |]. rewrite IH by exact Hin. reflexivity.
Qed.




(** **** What the receive handler keeps *)

Lemma deliver_keeps_fallback ix chunk msgend st :
  ETradioHandler (state_of (deliver ix chunk msgend st)) = ETradioHandler st.
Proof.
  unfold deliver. destruct msgend; simpl; [| reflexivity].
  destruct (array_get (ETradioHandlers st) ix); reflexivity.
Qed.

Lemma onReceivedString_keeps_handlers msg st :
  Forall is_Some (ETradioHandlers st) ->
  is_Some (ETradioHandler st) ->
  Forall is_Some (ETradioHandlers (state_of (onReceivedString msg st))) /\
  is_Some (ETradioHandler (state_of (onReceivedString msg st))).
Proof.
  intros Hall Hfb. unfold onReceivedString.
  destruct (_ =? _)%nat.
  - destruct (jsle _ _ || jsge _ _); [split; assumption |].
    rewrite deliver_keeps_fallback.
    rewrite (proj2 (deliver_keeps _ _ _ _)). simpl.
    split; [| exact Hfb].
    apply Forall_app. split; [exact Hall | repeat constructor; exact Hfb].
  - rewrite deliver_keeps_fallback, (proj2 (deliver_keeps _ _ _ _)).
    split; assumption.
Qed.

(** Once [onRadioMessage] has given a fallback handler and every
    registered handler is set, no sequence of units, well-formed or not,
    makes the receive handler throw, and the registry stays well-formed. *)
Theorem receiveAll_returns us st :
  registry_ok st ->
  Forall is_Some (ETradioHandlers st) ->
  is_Some (ETradioHandler st) ->
  threw (receiveAll us st) = false /\
  registry_ok (state_of (receiveAll us st)) /\
  Forall is_Some (ETradioHandlers (state_of (receiveAll us st))).
Proof.
  revert st. induction us as [| u us IH]; intros st Hok Hall Hfb.
  - simpl. auto.
  - cbn [receiveAll].
    pose proof (onReceivedString_returns u st Hok Hall Hfb) as Hret.
    pose proof (onReceivedString_ok u st Hok) as Hok1.
    pose proof (onReceivedString_keeps_handlers u st Hall Hfb) as [Hall1 Hfb1].
    destruct (onReceivedString u st) as [st1 c1 | st1 c1]; [| discriminate].
    simpl in Hok1, Hall1, Hfb1.
    destruct (IH st1 Hok1 Hall1 Hfb1) as (H1 & H2 & H3).
    destruct (receiveAll us st1); simpl in *; auto.
Qed.

Lemma receiveAll_returns_witness :
  threw (receiveAll [str "~"; str ""; str "x"; str "00~"; str "5"]
           (onRadioMessage 1%nat emptyRegistry)) = false.
Proof.
  refine (proj1 (receiveAll_returns _ (onRadioMessage 1%nat emptyRegistry) _ _ _)).
  - split; simpl; constructor.
  - constructor.
  - simpl. eauto.
Defined.

(** In every registry the program can reach, the three arrays have the
    same length and every text is a string: entry [ix] of one array belongs
    to entry [ix] of the others. *)
Theorem reachable_arrays_in_step st (ix : nat) :
  reachable st ->
  length (ETradioMsgs st) = length (ETradioIds st) /\
  length (ETradioHandlers st) = length (ETradioIds st) /\
  (is_Some (ETradioIds st !! ix) -> is_Some (array_get (ETradioMsgs st) ix)).
Proof.
  intros Hreach. destruct (reachable_ok st Hreach) as [Hm Hh Ht _].
  split; [exact Hm |]. split; [exact Hh |].
  intros Hix. apply lookup_lt_is_Some in Hix. rewrite <- Hm in Hix.
  destruct (lookup_lt_is_Some_2 _ _ Hix) as [o Ho].
  unfold array_get. rewrite Ho. simpl.
  rewrite Forall_forall in Ht. exact (Ht o (list_elem_of_lookup_2 _ _ _ Ho)).
Qed.

Lemma reachable_arrays_in_step_witness :
  let st := state_of (onReceivedString (str "07abc")
                        (fst (registerMessageHandler (str "x") None emptyRegistry))) in
  length (ETradioMsgs st) = length (ETradioIds st) /\
  length (ETradioHandlers st) = length (ETradioIds st) /\
  (is_Some (ETradioIds st !! 1%nat) -> is_Some (array_get (ETradioMsgs st) 1)).
Proof.
  apply reachable_arrays_in_step.
  apply reachable_receive, reachable_register, reachable_start.
Defined.

(** **** Registering beside an existing entry *)

Lemma array_get_app_l {A} (a more : list (option A)) (ix : nat) :
  (ix < length a)%nat -> array_get (a ++ more) ix = array_get a ix.
Proof. intros H. unfold array_get. rewrite lookup_app_l by exact H. reflexivity. Qed.

Lemma array_set_app_l {A} (a more : list (option A)) (ix : nat) (v : A) :
  (ix < length a)%nat -> array_set (a ++ more) ix v = array_set a ix v ++ more.
Proof.
  intros H. rewrite !array_set_inside by (rewrite ?length_app; lia).
  apply insert_app_l, H.
Qed.

(** A unit whose id is registered is handled the same whether another
    registration comes before or after it: the calls are the same and so is
    the registry. In particular a second registration of an id that is
    already there never gets a message; the first entry does. *)
Theorem registerMessageHandler_receive_commute msg id hnd st :
  registry_ok st ->
  substr msg 0 (Some 2) ∈ ETradioIds st ->
  let st' := fst (registerMessageHandler id hnd st) in
  calls_of (onReceivedString msg st') = calls_of (onReceivedString msg st) /\
  threw (onReceivedString msg st') = threw (onReceivedString msg st) /\
  state_of (onReceivedString msg st')
  = fst (registerMessageHandler id hnd (state_of (onReceivedString msg st))).
Proof.
  intros [Hm Hh _ _] Hin st'. subst st'. unfold onReceivedString.
  cbn [fst registerMessageHandler ETradioIds].
  rewrite scanIds_app_found by exact Hin.
  set (idstr := substr msg 0 (Some 2)) in *.
  assert (Hlt : (scanIds idstr (ETradioIds st) < length (ETradioIds st))%nat).
  { pose proof (scanIds_le idstr (ETradioIds st)).
    destruct (decide (scanIds idstr (ETradioIds st) = length (ETradioIds st)))
      as [Heq | ?]; [| lia].
    apply scanIds_absent in Heq. contradiction. }
  set (ix := scanIds _ _) in *.
  rewrite length_app. cbn [length].
  destruct (Nat.eqb_spec ix (length (ETradioIds st) + 1)) as [? | _]; [lia |].
  destruct (Nat.eqb_spec ix (length (ETradioIds st))) as [? | _]; [lia |].
  unfold deliver, registerMessageHandler.
  cbn [ETradioMsgs ETradioHandlers ETradioIds ETradioHandler fst].
  rewrite (array_get_app_l (ETradioMsgs st)) by lia.
  rewrite (array_get_app_l (ETradioHandlers st)) by lia.
  rewrite (array_set_app_l (ETradioMsgs st)) by lia.
  destruct (bool_decide _); [| cbn; repeat split; reflexivity].
  destruct (array_get (ETradioHandlers st) ix); cbn;
    [| repeat split; reflexivity].
  rewrite array_set_app_l by (rewrite array_set_inside, length_insert; lia).
  repeat split; reflexivity.
Qed.

Lemma registerMessageHandler_receive_commute_witness :
  let st := fst (registerMessageHandler (str "07") (Some 1%nat) emptyRegistry) in
  calls_of (onReceivedString (str "07hi~")
              (fst (registerMessageHandler (str "07") (Some 2%nat) st)))
  = calls_of (onReceivedString (str "07hi~") st).
Proof.
  intros st.
  refine (proj1 (registerMessageHandler_receive_commute (str "07hi~") (str "07")
                   (Some 2%nat) st _ _)).
  - split; simpl; repeat constructor. eauto.
  - apply (bool_decide_unpack _). vm_compute. exact I.
Defined.

(** **** Units shorter than an id *)

Lemma short_id_absent idstr st :
  reachable st -> (length idstr < 2)%nat -> idstr ∉ ETradioIds st.
Proof.
  intros Hreach Hshort Hin.
  pose proof (ok_ids st (reachable_ok st Hreach)) as Hids.
  rewrite Forall_forall in Hids. specialize (Hids idstr Hin). lia.
Qed.

(** No registered id matches a unit of fewer than two characters. The
    empty unit is dropped. A unit that is one digit from 1 to 9 is not:
    every time it arrives, a new entry is appended under the digit and ['#'],
    which the next such unit does not find either. *)
Theorem onReceivedString_short_unit (d : Z) st :
  reachable st -> 1 <= d <= 9 ->
  onReceivedString [] st = Returned st [] /\
  onReceivedString [digit_char d] st
  = Returned (fst (registerMessageHandler [digit_char d] (ETradioHandler st) st)) [] /\
  [digit_char d] ∉
    ETradioIds (fst (registerMessageHandler [digit_char d] (ETradioHandler st) st)).
Proof.
  intros Hreach Hd. split; [| split].
  - unfold onReceivedString.
    assert (Habs : substr [] 0 (Some 2) ∉ ETradioIds st)
      by (apply short_id_absent; [exact Hreach | simpl; lia]).
    rewrite (proj2 (scanIds_absent _ _) Habs), Nat.eqb_refl. reflexivity.
  - assert (Hdig : exists c, digit_char d = c /\
                     toNumber [c] = Num (inject_Z d) /\ c <> tilde).
    { assert (Hall : forallb (fun n =>
                        match toNumber [digit_char (Z.of_nat n)] with
                        | Num (Qmake a b) =>
                            (a =? Z.of_nat n) && (Pos.eqb b 1)
                            && negb (bool_decide (digit_char (Z.of_nat n) = tilde))
                        | NaN => false
                        end) (seq 1 9) = true) by (vm_compute; reflexivity).
      rewrite forallb_forall in Hall.
      specialize (Hall (Z.to_nat d)). rewrite Z2Nat.id in Hall by lia.
      specialize (Hall ltac:(apply in_seq; lia)).
      exists (digit_char d). split; [reflexivity |].
      destruct (toNumber [digit_char d]) as [| [a b]]; [discriminate |].
      apply andb_true_iff in Hall as [Hall Hnt].
      apply andb_true_iff in Hall as [Ha Hb].
      apply Z.eqb_eq in Ha. apply Pos.eqb_eq in Hb. subst.
      split; [reflexivity |].
      apply negb_true_iff, bool_decide_eq_false in Hnt. exact Hnt. }
    destruct Hdig as (c & -> & Hnum & Hnt).
    assert (Habs : [c] ∉ ETradioIds st)
      by (apply short_id_absent; [exact Hreach | simpl; lia]).
    destruct (reachable_ok st Hreach) as [Hm Hh _ _].
    unfold onReceivedString.
    change (substr [c] 0 (Some 2)) with [c].
    rewrite (proj2 (scanIds_absent _ _) Habs), Nat.eqb_refl, Hnum.
    replace (jsle (Num (inject_Z d)) (Num 0) || jsge (Num (inject_Z d)) (Num 100))
      with false.
    2:{ symmetry. unfold jsge, jsle. apply orb_false_iff.
        split; apply not_true_is_false; rewrite Qle_bool_iff;
          unfold Qle; simpl; lia. }
    change (substr [c] (len [c] - 1) None) with [c].
    destruct (bool_decide_reflect ([c] = str "~")) as [Heq | _].
    { exfalso. apply Hnt. injection Heq as ->. reflexivity. }
    change (substr [c] 2 (Some (len [c] - 2))) with (@nil ascii).
    unfold deliver, registerMessageHandler, array_get.
    cbn [fst ETradioMsgs ETradioIds ETradioHandlers ETradioHandler].
    rewrite list_lookup_middle by (symmetry; exact Hm). cbn.
    rewrite array_set_inside by (rewrite length_app; cbn; lia).
    rewrite list_insert_id by (apply list_lookup_middle; symmetry; exact Hm).
    reflexivity.
  - apply short_id_absent; [| simpl; lia].
    apply reachable_register, Hreach.
Qed.

Lemma onReceivedString_short_unit_witness :
  onReceivedString [] emptyRegistry = Returned emptyRegistry [] /\
  onReceivedString (str "7") emptyRegistry
  = Returned (Registry [str "7#"] [Some []] [None] None) [].
Proof.
  destruct (onReceivedString_short_unit 7 emptyRegistry reachable_start
              ltac:(lia)) as (H1 & H2 & _).
  split; [exact H1 | exact H2].
Defined.

(** **** Two messages under different ids, their units mixed *)

Section Channel.

Variables (idstr : jsstring) (ix : nat) (h : strhandler).
Hypothesis Hid : length idstr = 2%nat.

(** What is still to come on a channel: nothing, with the text empty, or
    the units of the rest of a message, which will complete [acc]. *)
Let coming (xs : list jsstring) (acc : jsstring)
    (res : list (strhandler * jsstring)) : Prop :=
  (xs = [] /\ acc = [] /\ res = []) \/
  (exists msg,
      (tilde ∉ msg) /\ ((length msg mod 17 <> 0)%nat \/ msg = []) /\
      xs = units (sendLoop idstr msg) /\ res = [(h, acc ++ msg)]).

Lemma coming_start msg :
  tilde ∉ msg -> (length msg mod 17 <> 0)%nat \/ msg = [] ->
  coming (units (sendLoop idstr msg)) [] [(h, msg)].
Proof. intros Ht Hm. right. exists msg. auto. Qed.



End Channel.








End MoreReceiving.

(** ** More on the group *)

Section MoreGroup.

Import GeneralTs.
Implicit Types (st : group_state) (ins : list input).

(** What holds between any two handler runs. *)
Let settled st : Prop :=
  1 <= ETgroup st <= 9 /\ 0 <= millis st /\
  (eventRunning st = true ->
   ETgroupSet st = true /\ millis st < ETgroupTimer st <= millis st + 1000) /\
  (eventRunning st = false -> ETgroupSet st = false /\ ETgroupTimer st = 0) /\
  (length (commits st) + (if eventRunning st then 1 else 0) = 1 + raises st)%nat.

Lemma settled_startup (now : Z) : 0 <= now -> settled (startup now).
Proof.
  intros Hnow. repeat split; simpl; try lia; discriminate.
Qed.

Lemma settled_step st (i : input) : settled st -> settled (step st i).
Proof.
  intros (Hg & Hms & Hrun & Hidle & Hcount).
  unfold commits, raises in Hcount.
  destruct i; cbn [step].
  - unfold onLogoEvent.
    destruct (eventRunning st) eqn:Er.
    + destruct (Hrun eq_refl) as [Hset Ht]. rewrite Hset.
      destruct (Z.eqb_spec (ETgroupTimer st) 0) as [? | _]; [lia |].
      unfold settled, commits, raises.
      cbn [ETgroup ETgroupTimer ETgroupSet millis eventRunning effects].
      rewrite !omap_app, !length_app. cbn [omap length].
      destruct (Z.gtb_spec (ETgroup st + 1) 9);
        (split; [lia |]); (split; [lia |]);
        (split; [intros _; split; [reflexivity | lia] |]);
        (split; [discriminate | cbn; lia]).
    + destruct (Hidle eq_refl) as [Hset Ht]. rewrite Hset, Ht.
      unfold settled, commits, raises.
      cbn [ETgroup ETgroupTimer ETgroupSet millis eventRunning effects Z.eqb].
      rewrite !omap_app, !length_app. cbn [omap length].
      split; [lia |]. split; [lia |].
      split; [intros _; split; [reflexivity | lia] |].
      split; [discriminate | cbn; lia].
  - cbn [eventRunning].
    destruct (eventRunning st) eqn:Er.
    + destruct (Hrun eq_refl) as [Hset Ht].
      unfold onEventPoll. cbn [ETgroupTimer millis ETgroup effects].
      destruct (Z.gtb_spec (ETgroupTimer st) (millis st + 1)).
      * unfold settled, commits, raises.
        cbn [ETgroup ETgroupTimer ETgroupSet millis eventRunning effects].
        split; [lia |]. split; [lia |].
        split; [intros _; split; [exact Hset | lia] |].
        split; [discriminate | exact Hcount].
      * unfold settled, commits, raises.
        cbn [ETgroup ETgroupTimer ETgroupSet millis eventRunning effects].
        rewrite !omap_app, !length_app. cbn [omap length].
        split; [lia |]. split; [lia |].
        split; [discriminate |].
        split; [intros _; split; reflexivity | cbn; lia].
    + destruct (Hidle eq_refl) as [Hset Ht].
      unfold settled, commits, raises.
      cbn [ETgroup ETgroupTimer ETgroupSet millis eventRunning effects].
     
      split; [lia |]. split; [lia |].
      split; [discriminate |].
      split; [intros _; split; assumption | exact Hcount].
Qed.

Lemma settled_run ins st : settled st -> settled (run ins st).
Proof.
  revert st. induction ins as [| i ins IH]; intros st Hst; [exact Hst |].
  rewrite run_cons. apply IH, settled_step, Hst.
Qed.

(** Whatever is pressed and whenever, the group stays within 1..9, the
    flag [ETgroupSet] is set exactly while a timer is pending, and a pending
    timer lies ahead of the clock by 1000 ms at most. *)
Theorem group_and_timer_invariant (now : Z) ins :
  0 <= now ->
  let st := run ins (startup now) in
  1 <= ETgroup st <= 9 /\
  (ETgroupSet st = true <-> ETgroupTimer st <> 0) /\
  (ETgroupTimer st <> 0 -> millis st < ETgroupTimer st <= millis st + 1000).
Proof.
  intros Hnow st.
  destruct (settled_run ins _ (settled_startup now Hnow))
    as (Hg & Hms & Hrun & Hidle & _).
  fold st in Hg, Hms, Hrun, Hidle.
  split; [exact Hg |].
  destruct (eventRunning st).
  - destruct (Hrun eq_refl) as [Hset Ht]. split; [| intros _; exact Ht].
    split; [intros _; lia | intros _; exact Hset].
  - destruct (Hidle eq_refl) as [Hset Ht]. split; [| intros Hn; contradiction].
    rewrite Hset. split; [discriminate | intros Hn; contradiction].
Qed.

Lemma group_and_timer_invariant_witness :
  let st := run [Logo; Ms; Logo; Logo; Ms] (startup 0) in
  1 <= ETgroup st <= 9 /\
  (ETgroupSet st = true <-> ETgroupTimer st <> 0) /\
  (ETgroupTimer st <> 0 -> millis st < ETgroupTimer st <= millis st + 1000).
Proof. apply (group_and_timer_invariant 0 [Logo; Ms; Logo; Logo; Ms]). lia. Defined.

(** Every raised event is answered by one [displayGroup()], no more: the
    number of displays, the one at startup included, is one more than the
    number of raised events, less one while a timer is pending. *)
Theorem group_displays_match_raises (now : Z) ins :
  0 <= now ->
  let st := run ins (startup now) in
  (length (commits st) + (if ETgroupSet st then 1 else 0) = 1 + raises st)%nat.
Proof.
  intros Hnow st.
  destruct (settled_run ins _ (settled_startup now Hnow))
    as (_ & _ & Hrun & Hidle & Hcount).
  fold st in Hrun, Hidle, Hcount.
  destruct (eventRunning st).
  - destruct (Hrun eq_refl) as [-> _]. exact Hcount.
  - destruct (Hidle eq_refl) as [-> _]. exact Hcount.
Qed.

Lemma group_displays_match_raises_witness :
  let st := run (Logo :: replicate 1000 Ms ++ [Logo; Logo]) (startup 0) in
  (length (commits st) + (if ETgroupSet st then 1 else 0) = 1 + raises st)%nat.
Proof.
  apply (group_displays_match_raises 0 (Logo :: replicate 1000 Ms ++ [Logo; Logo])).
  lia.
Defined.

End MoreGroup.

(** ** More on waiting *)

Section MoreWaiting.

Variable pressesG : Z -> option GeneralTs.Button.
Variable pressesM : Z -> option MainTs.Button.

Lemma waitLoop_bounds (k : nat) :
  forall (tm : Z) (st : GeneralTs.wait_state) (n : nat),
    Z.to_nat (tm - GeneralTs.clock st) = k ->
    let r := GeneralTs.waitLoop pressesG tm st n in
    GeneralTs.clock st <= GeneralTs.clock (fst r)
    /\ GeneralTs.clock (fst r) <= Z.max (GeneralTs.clock st) tm
    /\ Z.of_nat (snd r) = Z.of_nat n + (GeneralTs.clock (fst r) - GeneralTs.clock st).
Proof.
  induction k as [k IH] using lt_wf_ind. intros tm st n Hk.
  rewrite waitLoop_unfold.
  destruct (Z.ltb_spec (GeneralTs.clock st) tm) as [Hlt | Hge];
    [| cbn; lia].
  destruct (GeneralTs.ETwaitAbort st); [cbn; lia |].
  assert (Hc : GeneralTs.clock (GeneralTs.pause1 pressesG st)
               = GeneralTs.clock st + 1).
  { unfold GeneralTs.pause1. destruct (pressesG _) as [[] |]; reflexivity. }
  destruct (IH (Z.to_nat (tm - GeneralTs.clock (GeneralTs.pause1 pressesG st)))
              ltac:(rewrite Hc; lia) tm (GeneralTs.pause1 pressesG st) (S n)
              eq_refl) as (H1 & H2 & H3).
  cbv zeta. rewrite Hc in *. lia.
Qed.

Lemma pollLoop_bounds (k : nat) :
  forall (tm : Z) (st : MainTs.wait_state) (n : nat),
    Z.to_nat (tm - MainTs.clock st) = k ->
    let r := MainTs.pollLoop pressesM tm st n in
    MainTs.clock st <= MainTs.clock (fst r)
    /\ MainTs.clock (fst r) <= Z.max (MainTs.clock st) tm
    /\ Z.of_nat (snd r) = Z.of_nat n + (MainTs.clock (fst r) - MainTs.clock st).
Proof.
  induction k as [k IH] using lt_wf_ind. intros tm st n Hk.
  rewrite sticky_waitLoop_unfold.
  destruct (Z.ltb_spec (MainTs.clock st) tm) as [Hlt | Hge];
    [| cbn; lia].
  destruct (MainTs.WAITABORT st); [cbn; lia |].
  assert (Hc : MainTs.clock (MainTs.pause1 pressesM st) = MainTs.clock st + 1).
  { unfold MainTs.pause1. destruct (pressesM _) as [[] |]; reflexivity. }
  destruct (IH (Z.to_nat (tm - MainTs.clock (MainTs.pause1 pressesM st)))
              ltac:(rewrite Hc; lia) tm (MainTs.pause1 pressesM st) (S n)
              eq_refl) as (H1 & H2 & H3).
  cbv zeta. rewrite Hc in *. lia.
Qed.

(** Whatever buttons are pressed, a [wait(sec)] of either file returns,
    never after more than [sec * 1000] pauses of 1 ms, and the clock at the
    return is the clock at the call plus the pauses made. *)
Theorem wait_never_overruns (sec : Z)
    (stG : GeneralTs.wait_state) (stM : MainTs.wait_state) :
  let rG := GeneralTs.wait pressesG sec stG in
  let rM := MainTs.wait pressesM sec stM in
  (Z.of_nat (snd rG) <= Z.max 0 (sec * 1000) /\
   GeneralTs.clock (fst rG) = GeneralTs.clock stG + Z.of_nat (snd rG)) /\
  (Z.of_nat (snd rM) <= Z.max 0 (sec * 1000) /\
   MainTs.clock (fst rM) = MainTs.clock stM + Z.of_nat (snd rM)).
Proof.
  cbv zeta. unfold GeneralTs.wait, MainTs.wait.
  pose proof (waitLoop_bounds _ (GeneralTs.clock stG + sec * 1000) stG 0 eq_refl)
    as (G1 & G2 & G3).
  pose proof (pollLoop_bounds _ (MainTs.clock stM + sec * 1000) stM 0 eq_refl)
    as (M1 & M2 & M3).
  cbv zeta in *. lia.
Qed.

(** A [wait] of no or negative duration returns at once and does not look
    at the abort flag: the [wait] of general.ts leaves a set flag set. *)
Theorem wait_of_no_duration (sec : Z)
    (stG : GeneralTs.wait_state) (stM : MainTs.wait_state) :
  sec <= 0 ->
  GeneralTs.wait pressesG sec stG = (stG, 0%nat) /\
  MainTs.wait pressesM sec stM = (stM, 0%nat).
Proof.
  intros Hsec. unfold GeneralTs.wait, MainTs.wait.
  rewrite waitLoop_unfold, sticky_waitLoop_unfold.
  destruct (Z.ltb_spec (GeneralTs.clock stG) (GeneralTs.clock stG + sec * 1000));
    [lia |].
  destruct (Z.ltb_spec (MainTs.clock stM) (MainTs.clock stM + sec * 1000));
    [lia |].
  split; reflexivity.
Qed.

(** With the flag unset and button B left alone, a [wait(sec)] of either
    file makes [sec * 1000] pauses and returns with the flag unset. *)
Theorem wait_lasts_full_time (sec t0 : Z) :
  0 <= sec ->
  (forall t, t0 <= t < t0 + sec * 1000 ->
             pressesG t <> Some GeneralTs.ButtonB /\
             pressesM t <> Some MainTs.ButtonB) ->
  GeneralTs.wait pressesG sec (GeneralTs.WaitState t0 false)
  = (GeneralTs.WaitState (t0 + sec * 1000) false, Z.to_nat (sec * 1000)) /\
  MainTs.wait pressesM sec (MainTs.WaitState t0 false)
  = (MainTs.WaitState (t0 + sec * 1000) false, Z.to_nat (sec * 1000)).
Proof.
  intros Hsec Hno. split.
  - unfold GeneralTs.wait. cbn [GeneralTs.clock].
    rewrite (waitLoop_undisturbed pressesG (Z.to_nat (sec * 1000)))
      by (rewrite ?Z2Nat.id by lia; first [lia | intros t Ht; apply Hno, Ht]).
    rewrite Z2Nat.id by lia. rewrite waitLoop_unfold. cbn [GeneralTs.clock].
    destruct (Z.ltb_spec (t0 + sec * 1000) (t0 + sec * 1000)); [lia |].
    reflexivity.
  - unfold MainTs.wait. cbn [MainTs.clock].
    rewrite (sticky_waitLoop_undisturbed pressesM (Z.to_nat (sec * 1000)))
      by (rewrite ?Z2Nat.id by lia; first [lia | intros t Ht; apply Hno, Ht]).
    rewrite Z2Nat.id by lia. rewrite sticky_waitLoop_unfold. cbn [MainTs.clock].
    destruct (Z.ltb_spec (t0 + sec * 1000) (t0 + sec * 1000)); [lia |].
    reflexivity.
Qed.

End MoreWaiting.

(** Button B pressed during the last pause of a [wait] comes too late for
    it: the [wait] of general.ts ends on time and leaves the flag set, and
    the flag then ends the next [wait] before its first pause. *)
Theorem wait_late_stop_hits_next_wait
    (pressesG : Z -> option GeneralTs.Button) (sec sec' t0 : Z) :
  0 < sec -> 0 < sec' ->
  (forall t, t0 <= t < t0 + sec * 1000 - 1 ->
             pressesG t <> Some GeneralTs.ButtonB) ->
  pressesG (t0 + sec * 1000 - 1) = Some GeneralTs.ButtonB ->
  let r := GeneralTs.wait pressesG sec (GeneralTs.WaitState t0 false) in
  r = (GeneralTs.WaitState (t0 + sec * 1000) true, Z.to_nat (sec * 1000)) /\
  GeneralTs.wait pressesG sec' (fst r)
  = (GeneralTs.WaitState (t0 + sec * 1000) false, 0%nat).
Proof.
  intros Hsec Hsec' Hno Hb r.
  assert (Hr : r = (GeneralTs.WaitState (t0 + sec * 1000) true,
                    Z.to_nat (sec * 1000))).
  { subst r. unfold GeneralTs.wait. cbn [GeneralTs.clock].
    rewrite (waitLoop_undisturbed pressesG (Z.to_nat (sec * 1000 - 1)))
      by (rewrite ?Z2Nat.id by lia; first [lia | intros t Ht; apply Hno; lia]).
    rewrite Z2Nat.id by lia.
    rewrite waitLoop_unfold. cbn [GeneralTs.clock GeneralTs.ETwaitAbort].
    destruct (Z.ltb_spec (t0 + (sec * 1000 - 1)) (t0 + sec * 1000)); [| lia].
    unfold GeneralTs.pause1. cbn [GeneralTs.clock].
    replace (t0 + (sec * 1000 - 1)) with (t0 + sec * 1000 - 1) by lia.
    rewrite Hb. cbn [GeneralTs.onButtonPressed GeneralTs.clock GeneralTs.ETwaitAbort].
    rewrite waitLoop_unfold. cbn [GeneralTs.clock].
    destruct (Z.ltb_spec (t0 + sec * 1000 - 1 + 1) (t0 + sec * 1000)); [lia |].
    f_equal; [f_equal; lia | lia]. }
  split; [exact Hr |]. rewrite Hr. cbn [fst].
  apply wait_aborts_and_resets; [exact Hsec' | reflexivity].
Qed.

Lemma wait_of_no_duration_witness :
  GeneralTs.wait (fun _ => None) 0 (GeneralTs.WaitState 10 true)
  = (GeneralTs.WaitState 10 true, 0%nat) /\
  MainTs.wait (fun _ => None) 0 (MainTs.WaitState 10 true)
  = (MainTs.WaitState 10 true, 0%nat).
Proof. apply (wait_of_no_duration (fun _ => None) (fun _ => None) 0); lia. Defined.

Lemma wait_lasts_full_time_witness :
  GeneralTs.wait (fun _ => None) 2 (GeneralTs.WaitState 50 false)
  = (GeneralTs.WaitState 2050 false, 2000%nat) /\
  MainTs.wait (fun _ => Some MainTs.ButtonA) 2 (MainTs.WaitState 50 false)
  = (MainTs.WaitState 2050 false, 2000%nat).
Proof.
  apply (wait_lasts_full_time (fun _ => None) (fun _ => Some MainTs.ButtonA) 2 50).
  - lia.
  - intros t _. split; discriminate.
Defined.

Lemma wait_late_stop_hits_next_wait_witness :
  let presses := fun t => if t =? 999 then Some GeneralTs.ButtonB else None in
  let r := GeneralTs.wait presses 1 (GeneralTs.WaitState 0 false) in
  r = (GeneralTs.WaitState 1000 true, 1000%nat) /\
  GeneralTs.wait presses 3 (fst r) = (GeneralTs.WaitState 1000 false, 0%nat).
Proof.
  intros presses.
  apply (wait_late_stop_hits_next_wait presses 1 3 0).
  - lia.
  - lia.
  - intros t Ht. subst presses. cbv beta.
    destruct (Z.eqb_spec t 999); [lia | discriminate].
  - reflexivity.
Defined.

(** [waitUntil(state)] in full: called with [true] it returns at once;
    called with [false] it makes one pause after the other until button B is
    pressed, and returns after the pause in which that happens. *)
Theorem waitUntil_ends_only_by_button
    (presses : Z -> option MainTs.Button) (t0 : Z) (k fuel : nat) :
  (forall t, t0 <= t < t0 + Z.of_nat k -> presses t <> Some MainTs.ButtonB) ->
  presses (t0 + Z.of_nat k) = Some MainTs.ButtonB ->
  MainTs.waitUntil presses fuel true (MainTs.WaitState t0 false)
  = Some (MainTs.WaitState t0 false) /\
  MainTs.waitUntil presses fuel false (MainTs.WaitState t0 false)
  = if (k <? fuel)%nat then Some (MainTs.WaitState (t0 + Z.of_nat k + 1) true)
    else None.
Proof.
  intros Hno Hb. split; [apply waitUntil_true |].
  destruct (Nat.ltb_spec k fuel) as [Hlt | Hge].
  - apply waitUntil_false_stopped; assumption.
  - apply waitUntil_false_undisturbed. intros t Ht. apply Hno. lia.
Qed.

Lemma waitUntil_ends_only_by_button_witness :
  let presses := fun t => if t =? 12 then Some MainTs.ButtonB else None in
  MainTs.waitUntil presses 40 false (MainTs.WaitState 10 false)
  = Some (MainTs.WaitState 13 true).
Proof.
  intros presses.
  refine (proj2 (waitUntil_ends_only_by_button presses 10 2 40 _ _)).
  - intros t Ht. subst presses. cbv beta.
    destruct (Z.eqb_spec t 12); [lia | discriminate].
  - reflexivity.
Defined.

(** ** Colours *)

Section ColourFacts.

Import Colors.

Lemma toInt32_small (x : Z) : - 2 ^ 31 <= x < 2 ^ 31 -> toInt32 x = x.
Proof. unfold toInt32. intros H. div_lia. Qed.

Lemma bitand_255 (x : Z) : bitand x 255 = x mod 256.
Proof.
  unfold bitand. rewrite (toInt32_small 255) by lia.
  change 255 with (Z.ones 8). rewrite Z.land_ones by lia.
  unfold toInt32. change (2 ^ 8) with 256. div_lia.
Qed.

Lemma land_disjoint (hi lo k : Z) :
  0 <= k -> 0 <= lo < 2 ^ k -> Z.land (hi * 2 ^ k) lo = 0.
Proof.
  intros Hk Hlo. apply Z.bits_inj'. intros n Hn.
  rewrite Z.land_spec, Z.bits_0.
  destruct (Z.lt_ge_cases n k) as [Hlt | Hge].
  - rewrite Z.mul_pow2_bits_low by exact Hlt. reflexivity.
  - rewrite <- (Z.mod_small lo (2 ^ k)) by exact Hlo.
    rewrite Z.mod_pow2_bits_high by lia. apply andb_false_r.
Qed.

Lemma lor_disjoint (hi lo k : Z) :
  0 <= k -> 0 <= lo < 2 ^ k -> Z.lor (hi * 2 ^ k) lo = hi * 2 ^ k + lo.
Proof.
  intros Hk Hlo.
  rewrite <- Z.lxor_lor, <- Z.add_nocarry_lxor
    by (apply land_disjoint; assumption).
  reflexivity.
Qed.

Lemma shl_byte (a n : Z) :
  0 <= a < 256 -> 0 <= n <= 16 -> shl a n = a * 2 ^ n.
Proof.
  intros Ha Hn. unfold shl.
  rewrite (toInt32_small a) by lia.
  rewrite (Z.mod_small n 32) by lia.
  rewrite Z.shiftl_mul_pow2 by lia.
  apply toInt32_small.
  assert (0 < 2 ^ n <= 2 ^ 16)
    by (split; [apply Z.pow_pos_nonneg; lia | apply Z.pow_le_mono_r; lia]).
  change (2 ^ 16) with 65536 in *. nia.
Qed.

(** The packed value as a number. *)
Lemma rgbValues_eq (red green blue : Z) :
  rgbValues red green blue
  = red mod 256 * 65536 + green mod 256 * 256 + blue mod 256.
Proof.
  unfold rgbValues. cbv zeta. rewrite !bitand_255.
  pose proof (Z.mod_pos_bound red 256 ltac:(lia)) as Hr.
  pose proof (Z.mod_pos_bound green 256 ltac:(lia)) as Hg.
  pose proof (Z.mod_pos_bound blue 256 ltac:(lia)) as Hb.
  rewrite !shl_byte by lia.
  change (2 ^ 16) with 65536. change (2 ^ 8) with 256.
  unfold bitor.
  rewrite (toInt32_small (red mod 256 * 65536)) by lia.
  rewrite (toInt32_small (green mod 256 * 256)) by lia.
  change 65536 with (2 ^ 16).
  rewrite (lor_disjoint (red mod 256) (green mod 256 * 256) 16)
    by (change (2 ^ 16) with 65536; lia).
  change (2 ^ 16) with 65536.
  rewrite toInt32_small by lia.
  rewrite (toInt32_small (blue mod 256)) by lia.
  replace (red mod 256 * 65536 + green mod 256 * 256)
    with ((red mod 256 * 256 + green mod 256) * 2 ^ 8) by lia.
  rewrite (lor_disjoint _ (blue mod 256) 8) by (change (2 ^ 8) with 256; lia).
  lia.
Qed.

Lemma shr_eq (x n : Z) : 0 <= n < 32 -> shr x n = toInt32 x / 2 ^ n.
Proof.
  intros Hn. unfold shr. rewrite (Z.mod_small n 32) by lia.
  apply Z.shiftr_div_pow2. lia.
Qed.

Lemma redValue_eq (rgb : Z) : redValue rgb = rgb / 65536 mod 256.
Proof.
  unfold redValue. cbv zeta. rewrite bitand_255, shr_eq by lia.
  unfold toInt32. change (2 ^ 16) with 65536. div_lia.
Qed.

Lemma greenValue_eq (rgb : Z) : greenValue rgb = rgb / 256 mod 256.
Proof.
  unfold greenValue. cbv zeta. rewrite bitand_255, shr_eq by lia.
  unfold toInt32. change (2 ^ 8) with 256. div_lia.
Qed.

Lemma blueValue_eq (rgb : Z) : blueValue rgb = rgb mod 256.
Proof. unfold blueValue. cbv zeta. apply bitand_255. Qed.

(** Packing keeps the low eight bits of each of red, green and blue, gives
    a number from 0 to 0xFFFFFF, and the three unpacking functions return
    what was packed. *)
Theorem rgbValues_unpack (red green blue : Z) :
  0 <= rgbValues red green blue < 2 ^ 24 /\
  redValue (rgbValues red green blue) = red mod 256 /\
  greenValue (rgbValues red green blue) = green mod 256 /\
  blueValue (rgbValues red green blue) = blue mod 256.
Proof.
  rewrite redValue_eq, greenValue_eq, blueValue_eq, rgbValues_eq.
  change (2 ^ 24) with 16777216.
  pose proof (Z.mod_pos_bound red 256 ltac:(lia)) as Hr.
  pose proof (Z.mod_pos_bound green 256 ltac:(lia)) as Hg.
  pose proof (Z.mod_pos_bound blue 256 ltac:(lia)) as Hb.
  generalize dependent (red mod 256). generalize dependent (green mod 256).
  generalize dependent (blue mod 256). intros b Hb g Hg r Hr.
  repeat split; div_lia.
Qed.

(** Unpacking and packing again keeps the low 24 bits of the number. *)
Theorem rgbValues_repack (rgb : Z) :
  rgbValues (redValue rgb) (greenValue rgb) (blueValue rgb) = rgb mod 2 ^ 24.
Proof.
  rewrite rgbValues_eq, redValue_eq, greenValue_eq, blueValue_eq.
  change (2 ^ 24) with 16777216. div_lia.
Qed.

(** [fromColor] gives a packed value for every colour. [Color.None] and
    [Color.Black] both give 0; any other two colours give different
    values. *)
Theorem fromColor_values (c1 c2 : Color.t) :
  0 <= fromColor c1 < 2 ^ 24 /\
  rgbValues (redValue (fromColor c1)) (greenValue (fromColor c1))
    (blueValue (fromColor c1)) = fromColor c1 /\
  (fromColor c1 = fromColor c2 <->
   c1 = c2 \/ (fromColor c1 = 0 /\ fromColor c2 = 0)) /\
  (fromColor c1 = 0 <-> c1 = Color.None \/ c1 = Color.Black).
Proof.
  split; [destruct c1; simpl; lia |].
  split.
  { destruct c1; vm_compute; reflexivity. }
  split.
  - split.
    + destruct c1, c2; simpl; intros H;
        first [left; reflexivity | right; split; reflexivity | discriminate].
    + intros [-> | [-> ->]]; reflexivity.
  - split.
    + destruct c1; simpl; intros H;
        first [left; reflexivity | right; reflexivity | discriminate].
    + intros [-> | ->]; reflexivity.
Qed.

(** [fromRgbValues] returns one of thirteen names: never [Color.None],
    [Color.DarkGrey], [Color.Grey], [Color.LightGrey] or [Color.Violet]. *)
Theorem fromRgbValues_names (red green blue : Z) :
  fromRgbValues red green blue ∈
    [Color.White; Color.Orange; Color.Brown; Color.Yellow; Color.Green;
     Color.Cyan; Color.Blue; Color.Black; Color.Indigo; Color.Purple;
     Color.Pink; Color.Magenta; Color.Red].
Proof.
  unfold fromRgbValues. cbv zeta.
  match goal with |- colorOfHue ?h ∈ _ => generalize h end.
  intros hue. unfold colorOfHue.
  repeat match goal with
         | |- context [if ?b then _ else _] => destruct b
         end;
    repeat first [apply list_elem_of_here | apply list_elem_of_further].
Qed.

(** The Z comparisons of [fromRgbValues], decided by arithmetic. *)
Ltac decide_comparisons :=
  repeat (cbn [andb];
          match goal with
          | |- context [?a >? ?b] =>
              destruct (Z.gtb_spec a b); try (exfalso; lia)
          | |- context [?a <? ?b] =>
              destruct (Z.ltb_spec a b); try (exfalso; lia)
          | |- context [?a =? ?b] =>
              destruct (Z.eqb_spec a b); try (exfalso; lia)
          end);
  cbn [andb].

(** The colour when one part is greatest and the other two are equal,
    for every value 0..255 of the greatest part. *)
Lemma colorOfHue_pure (m : Z) :
  0 <= m <= 255 ->
  let adjusted k :=
    if PrimFloat.ltb (hueOf k 0 (m - -1)) (number 0)
    then PrimFloat.add (hueOf k 0 (m - -1)) (number 360)
    else hueOf k 0 (m - -1) in
  colorOfHue (adjusted 0) = Color.White /\
  colorOfHue (adjusted 2) = Color.Green /\
  colorOfHue (adjusted 4) = Color.Purple.
Proof.
  intros Hm.
  assert (Hall : forallb (fun n =>
             let adjusted k :=
               if PrimFloat.ltb (hueOf k 0 (Z.of_nat n - -1)) (number 0)
               then PrimFloat.add (hueOf k 0 (Z.of_nat n - -1)) (number 360)
               else hueOf k 0 (Z.of_nat n - -1) in
             match colorOfHue (adjusted 0), colorOfHue (adjusted 2),
                   colorOfHue (adjusted 4) with
             | Color.White, Color.Green, Color.Purple => true
             | _, _, _ => false
             end) (seq 0 256) = true) by (vm_compute; reflexivity).
  rewrite forallb_forall in Hall.
  specialize (Hall (Z.to_nat m) ltac:(apply in_seq; lia)).
  rewrite Z2Nat.id in Hall by lia. cbv zeta in *.
  destruct (colorOfHue _); try discriminate.
  destruct (colorOfHue _); try discriminate.
  destruct (colorOfHue _); try discriminate.
  repeat split.
Qed.

(** For parts from 0 to 255 the name does not follow the hue where two
    parts are equal. Without a single greatest part the answer is
    [Color.White], so for every grey and for yellow, cyan and magenta. With
    a greatest part and the other two equal, it is [Color.White] for red,
    [Color.Green] for green and [Color.Purple] for blue. *)
Theorem fromRgbValues_equal_parts (red green blue : Z) :
  0 <= red <= 255 -> 0 <= green <= 255 -> 0 <= blue <= 255 ->
  (~ (green < red /\ blue < red) /\ ~ (red < green /\ blue < green) /\
   ~ (red < blue /\ green < blue) ->
   fromRgbValues red green blue = Color.White) /\
  (green = blue /\ blue < red -> fromRgbValues red green blue = Color.White) /\
  (red = blue /\ blue < green -> fromRgbValues red green blue = Color.Green) /\
  (red = green /\ green < blue -> fromRgbValues red green blue = Color.Purple).
Proof.
  intros Hr Hg Hb. split; [| split; [| split]].
  - intros (H1 & H2 & H3). unfold fromRgbValues. cbv zeta.
    decide_comparisons; reflexivity.
  - intros [-> Hlt]. destruct (colorOfHue_pure red Hr) as (H & _ & _).
    unfold fromRgbValues. cbv zeta. decide_comparisons.
    rewrite Z.sub_diag. exact H.
  - intros [-> Hlt]. destruct (colorOfHue_pure green Hg) as (_ & H & _).
    unfold fromRgbValues. cbv zeta. decide_comparisons.
    rewrite Z.sub_diag. exact H.
  - intros [-> Hlt]. destruct (colorOfHue_pure blue Hb) as (_ & _ & H).
    unfold fromRgbValues. cbv zeta. decide_comparisons.
    rewrite Z.sub_diag. exact H.
Qed.

Lemma fromRgbValues_equal_parts_witness :
  fromRgbValues 255 255 0 = Color.White /\
  fromRgbValues 255 0 0 = Color.White /\
  fromRgbValues 0 0 255 = Color.Purple.
Proof.
  split; [| split].
  - refine (proj1 (fromRgbValues_equal_parts 255 255 0 _ _ _) _); lia.
  - refine (proj1 (proj2 (fromRgbValues_equal_parts 255 0 0 _ _ _)) _); lia.
  - refine (proj2 (proj2 (proj2 (fromRgbValues_equal_parts 0 0 255 _ _ _))) _);
      lia.
Defined.

(** Turning a colour into its value and back gives the colour itself only
    for [Color.Green] and [Color.White]. *)
Theorem fromRgb_fromColor (c : Color.t) :
  fromRgb (fromColor c) =
  match c with
  | Color.Green => Color.Green
  | Color.Blue => Color.Purple
  | Color.Orange => Color.Yellow
  | Color.Pink => Color.Red
  | Color.Indigo => Color.Magenta
  | Color.Violet => Color.Pink
  | _ => Color.White
  end.
Proof. destruct c; vm_compute; reflexivity. Qed.

End ColourFacts.

(** ** Buttons *)

Section Buttons.

Import GeneralTs.

Lemma registerStartHandler_all (hs : list handler) (st : button_state) :
  foldl (fun s hnd => fst (registerStartHandler hnd s)) st hs
  = ButtonState (waiting st) (ETstartHandlers st ++ hs) (ETstopHandlers st)
      (ETbuttonAHandler st) (ETbuttonBHandler st).
Proof.
  revert st. induction hs as [| hnd hs IH]; intros st.
  - simpl. rewrite app_nil_r. destruct st; reflexivity.
  - cbn [foldl]. rewrite IH. cbn. rewrite <- app_assoc. reflexivity.
Qed.

(** Start handlers registered one after the other are all called by
    button A, once each and in the order of registration, before the handler
    of [onPressedA]; the number returned at registration is the position in
    that order. Button A calls no stop handler and unsets the abort flag;
    button B sets it and calls no start handler. *)
Theorem start_handlers_called_in_order
    (hs : list handler) (hnd : handler) (st : button_state) :
  let st' := foldl (fun s h => fst (registerStartHandler h s)) st hs in
  snd (onButton ButtonA st')
  = ETstartHandlers st ++ hs
    ++ match ETbuttonAHandler st with Some a => [a] | None => [] end /\
  snd (onButton ButtonB st')
  = ETstopHandlers st
    ++ match ETbuttonBHandler st with Some b => [b] | None => [] end /\
  ETwaitAbort (waiting (fst (onButton ButtonA st'))) = false /\
  ETwaitAbort (waiting (fst (onButton ButtonB st'))) = true /\
  snd (registerStartHandler hnd st')
  = Z.of_nat (length (ETstartHandlers st) + length hs) /\
  ETstartHandlers (fst (registerStartHandler hnd st'))
    !! (length (ETstartHandlers st) + length hs)%nat = Some hnd.
Proof.
  cbv zeta. rewrite registerStartHandler_all. cbn.
  split; [rewrite <- app_assoc; reflexivity |].
  split; [reflexivity |]. split; [reflexivity |]. split; [reflexivity |].
  split.
  - rewrite !length_app. cbn. lia.
  - apply list_lookup_middle. rewrite length_app. reflexivity.
Qed.

End Buttons.

(** ** The group in main.ts *)

Section MainGroup.

Import MainTs.

Lemma onEventResume_keeps_group (st : group_state) :
  GROUP (onEventResume st) = GROUP st.
Proof.
  unfold onEventResume. destruct (running st) as [| | [| [| rest]]];
    try reflexivity.
  destruct (tm_group st >? millis st); reflexivity.
Qed.

(** In main.ts every press of the logo moves the group one step round
    1..9, the first press and the first press of a burst like any other:
    after any presses and pauses the group is the start group moved by the
    number of presses. *)
Theorem main_group_counts_every_press (ins : list input) (st : group_state) :
  1 <= GROUP st <= 9 ->
  GROUP (run ins st) = GeneralTs.cycle (GROUP st) (presses_in ins) /\
  1 <= GROUP (run ins st) <= 9.
Proof.
  intros Hg. split; [| ].
  - revert st Hg. induction ins as [| i ins IH]; intros st Hg.
    + simpl. symmetry. apply cycle_0, Hg.
    + change (run (i :: ins) st) with (run ins (step st i)).
      destruct i.
      * change (presses_in (Logo :: ins)) with (S (presses_in ins)).
        rewrite cycle_S by exact Hg.
        assert (Hstep : GROUP (step st Logo)
                        = if GROUP st + 1 >? 9 then 1 else GROUP st + 1).
        { cbn [step]. unfold onLogoEvent.
          destruct (tm_group st =? 0); reflexivity. }
        rewrite IH; rewrite Hstep; [reflexivity |].
        destruct (Z.gtb_spec (GROUP st + 1) 9); lia.
      * change (presses_in (Ms :: ins)) with (presses_in ins).
        assert (Hstep : GROUP (step st Ms) = GROUP st).
        { cbn [step]. rewrite onEventResume_keeps_group. reflexivity. }
        rewrite IH; rewrite Hstep; [reflexivity | exact Hg].
  - revert st Hg. induction ins as [| i ins IH]; intros st Hg; [exact Hg |].
    change (run (i :: ins) st) with (run ins (step st i)).
    apply IH. destruct i.
    + cbn [step]. unfold onLogoEvent.
      destruct (tm_group st =? 0); cbn [GROUP];
        destruct (Z.gtb_spec (GROUP st + 1) 9); lia.
    + cbn [step]. rewrite onEventResume_keeps_group. exact Hg.
Qed.

Lemma main_run_cons (i : input) ins st : run (i :: ins) st = run ins (step st i).
Proof. reflexivity. Qed.

Lemma main_run_app ins1 ins2 st :
  run (ins1 ++ ins2) st = run ins2 (run ins1 st).
Proof. apply foldl_app. Qed.

Lemma main_run_polling (n : nat) st :
  running st = Polling ->
  millis st + Z.of_nat n < tm_group st ->
  run (replicate n Ms) st
  = GroupState (GROUP st) (tm_group st) (millis st + Z.of_nat n) Polling
      (effects st).
Proof.
  revert st. induction n as [| n IH]; intros st Hrun Hlt.
  - destruct st; simpl in *. subst. f_equal. lia.
  - cbn [replicate]. rewrite main_run_cons. cbn [step]. unfold onEventResume.
    cbn [running tm_group millis GROUP effects]. rewrite Hrun.
    destruct (Z.gtb_spec (tm_group st) (millis st + 1)) as [_ | ?]; [| lia].
    rewrite IH by (simpl; try reflexivity; lia).
    simpl. f_equal. lia.
Qed.

Lemma main_run_pausing (n : nat) st (rest : nat) :
  running st = Pausing (S (n + rest)) ->
  run (replicate n Ms) st
  = GroupState (GROUP st) (tm_group st) (millis st + Z.of_nat n)
      (Pausing (S rest)) (effects st).
Proof.
  revert st. induction n as [| n IH]; intros st Hrun.
  - destruct st; simpl in *. subst. f_equal. lia.
  - cbn [replicate]. rewrite main_run_cons. cbn [step]. unfold onEventResume.
    cbn [running tm_group millis GROUP effects]. rewrite Hrun.
    cbn [Nat.add]. rewrite IH by reflexivity.
    simpl. f_equal. lia.
Qed.

Lemma main_run_idle (n : nat) st :
  running st = NotRunning ->
  run (replicate n Ms) st
  = GroupState (GROUP st) (tm_group st) (millis st + Z.of_nat n) NotRunning
      (effects st).
Proof.
  revert st. induction n as [| n IH]; intros st Hrun.
  - destruct st; simpl in *. subst. f_equal. lia.
  - cbn [replicate]. rewrite main_run_cons. cbn [step]. unfold onEventResume.
    cbn [running tm_group millis GROUP effects]. rewrite Hrun.
    rewrite IH by reflexivity. simpl. f_equal. lia.
Qed.

Lemma main_run_one (i : input) st : run [i] st = step st i.
Proof. reflexivity. Qed.

Lemma main_step_show st :
  running st = Polling ->
  tm_group st <= millis st + 1 ->
  step st Ms
  = GroupState (GROUP st) (tm_group st) (millis st + 1) (Pausing 500)
      (effects st ++ [ShowNumber (GROUP st)]).
Proof.
  intros Hrun Hle. cbn [step]. unfold onEventResume.
  cbn [running tm_group millis GROUP effects]. rewrite Hrun.
  destruct (Z.gtb_spec (tm_group st) (millis st + 1)); [lia | reflexivity].
Qed.

Lemma main_step_end st :
  running st = Pausing 1 ->
  step st Ms
  = GroupState (GROUP st) 0 (millis st + 1) NotRunning
      (effects st ++ [Displayed]).
Proof.
  intros Hrun. cbn [step]. unfold onEventResume.
  cbn [running tm_group millis GROUP effects]. rewrite Hrun. reflexivity.
Qed.

Lemma main_run_further_presses (gaps : list nat) st :
  running st = Polling ->
  tm_group st = millis st + 1000 ->
  0 <= millis st ->
  1 <= GROUP st <= 9 ->
  Forall (fun g => (g < 1000)%nat) gaps ->
  let st' := run (concat (map (fun g => replicate g Ms ++ [Logo]) gaps)) st in
  running st' = Polling /\
  tm_group st' = millis st' + 1000 /\
  0 <= millis st' /\
  GROUP st' = GeneralTs.cycle (GROUP st) (length gaps) /\
  displays st' = displays st.
Proof.
  revert st. induction gaps as [| g gaps IH];
    intros st Hrun Htimer Hms Hgroup Hgaps.
  - simpl. rewrite cycle_0 by exact Hgroup.
    repeat (split; [first [assumption | reflexivity] |]). reflexivity.
  - apply Forall_cons in Hgaps as [Hg Hgaps].
    cbn [map concat length]. cbv zeta. rewrite <- app_assoc, !main_run_app.
    rewrite main_run_polling by (try assumption; lia).
    rewrite main_run_cons. cbn [run foldl step].
    unfold onLogoEvent.
    cbn [tm_group GROUP millis effects running].
    destruct (Z.eqb_spec (tm_group st) 0) as [? | _]; [lia |].
    rewrite cycle_S by exact Hgroup.
    set (g' := if GROUP st + 1 >? 9 then 1 else GROUP st + 1).
    assert (Hg' : 1 <= g' <= 9)
      by (subst g'; destruct (Z.gtb_spec (GROUP st + 1) 9); lia).
    destruct (IH (GroupState g' (millis st + Z.of_nat g + 1000)
                   (millis st + Z.of_nat g) Polling
                   (effects st ++ [RadioSetGroup g'; ShowNumber g'])))
      as (H1 & H2 & H3 & H4 & H5); simpl; try reflexivity; try lia;
      try assumption.
    repeat (split; [assumption |]).
    rewrite H5. unfold displays. simpl.
    rewrite omap_app. simpl. rewrite app_nil_r. reflexivity.
Qed.

(** In main.ts a burst of presses less than 1000 ms apart, followed by
    1500 ms without a press, ends with one [displayGroup()]: it starts
    1000 ms after the last press, pauses 500 ms and then calls the display
    handler or shows the icon, once. Every press of the burst has moved the
    group. *)
Theorem main_burst_displays_once (gaps : list nat) (quiet : nat) st :
  tm_group st = 0 -> running st = NotRunning ->
  1 <= GROUP st <= 9 -> 0 <= millis st ->
  Forall (fun g => (g < 1000)%nat) gaps ->
  (1500 <= quiet)%nat ->
  let st' := run (burst gaps ++ replicate quiet Ms) st in
  displays st' = S (displays st) /\
  GROUP st' = GeneralTs.cycle (GROUP st) (S (length gaps)) /\
  tm_group st' = 0 /\ running st' = NotRunning.
Proof.
  intros Htimer Hrun Hgroup Hms Hgaps Hquiet st'.
  subst st'. unfold burst.
  rewrite <- app_comm_cons, main_run_cons, main_run_app. cbn [step].
  unfold onLogoEvent. rewrite Htimer. cbn [Z.eqb].
  rewrite cycle_S by exact Hgroup.
  set (g' := if GROUP st + 1 >? 9 then 1 else GROUP st + 1).
  assert (Hg' : 1 <= g' <= 9)
    by (subst g'; destruct (Z.gtb_spec (GROUP st + 1) 9); lia).
  set (st1 := GroupState _ _ _ _ _).
  destruct (main_run_further_presses gaps st1)
    as (H1 & H2 & H3 & H4 & H5); try reflexivity; try assumption.
  set (st2 := run _ st1) in *.
  assert (H6 : displays st1 = displays st).
  { unfold displays. subst st1. simpl.
    rewrite !omap_app. simpl. rewrite !app_nil_r. reflexivity. }
  rewrite H6 in H5. change (GROUP st1) with g' in H4.
  clearbody st2. clear st1 H6.
  replace quiet with (999 + (1 + (499 + (1 + (quiet - 1500)))))%nat by lia.
  rewrite !replicate_add, !main_run_app.
  rewrite (main_run_polling 999 st2) by (try assumption; lia).
  change (replicate 1 Ms) with [Ms]. rewrite !main_run_one.
  rewrite (main_step_show
             (GroupState (GROUP st2) (tm_group st2) (millis st2 + Z.of_nat 999)
                Polling (effects st2)))
    by (cbn [running tm_group millis]; first [reflexivity | lia]).
  cbn [GROUP tm_group millis effects].
  rewrite (main_run_pausing 499 _ 0) by reflexivity.
  rewrite main_step_end by reflexivity.
  rewrite main_run_idle by reflexivity.
  unfold displays. cbn [GROUP tm_group millis running effects].
  rewrite !omap_app, !length_app. cbn [omap list_omap length].
  unfold displays in H5. rewrite H5, H4.
  repeat split. lia.
Qed.

Lemma main_burst_displays_once_witness :
  let st' := run (burst [300; 999]%nat ++ replicate 1500 Ms) (startup 0) in
  displays st' = 2%nat /\ GROUP st' = 4 /\
  tm_group st' = 0 /\ running st' = NotRunning.
Proof.
  apply (main_burst_displays_once [300; 999]%nat 1500 (startup 0)).
  - reflexivity.
  - reflexivity.
  - simpl. lia.
  - simpl. lia.
  - repeat constructor; lia.
  - lia.
Defined.

Lemma main_group_counts_every_press_witness :
  GROUP (run (Logo :: replicate 1600 Ms ++ [Logo; Ms; Logo]) (startup 0)) = 4.
Proof.
  refine (proj1 (main_group_counts_every_press
                   (Logo :: replicate 1600 Ms ++ [Logo; Ms; Logo]) (startup 0) _)).
  simpl. lia.
Defined.

End MainGroup.

(** ** Units under an unknown id, by example *)

Section UnknownIds.

Import GeneralTs.

Lemma onReceivedString_unknown_dropped_witness :
  onReceivedString (str "00 hello~") (onRadioMessage 1%nat emptyRegistry)
  = Returned (onRadioMessage 1%nat emptyRegistry) [].
Proof.
  refine (onReceivedString_unknown_dropped (str "00 hello~")
            (onRadioMessage 1%nat emptyRegistry) 0 _ _ _).
  - apply not_elem_of_nil.
  - reflexivity.
  - left. unfold Qle. simpl. lia.
Defined.

Lemma onReceivedString_unknown_registered_witness :
  let st' := state_of (onReceivedString (str ".5x")
                         (onRadioMessage 1%nat emptyRegistry)) in
  ETradioIds st' = [str ".5"] /\ ETradioHandlers st' = [Some 1%nat].
Proof.
  refine (onReceivedString_unknown_registered (str ".5x")
            (onRadioMessage 1%nat emptyRegistry) _ _).
  - apply not_elem_of_nil.
  - right. exists (0 + 5 / 10)%Q. split; [reflexivity |].
    unfold Qlt. simpl. lia.
Defined.

End UnknownIds.
